(** * Attestation verification and policy evaluation of cosign

    A shallow embedding of
    - [cmd/cosign/cli/verify/verify_attestation.go]: the envelope-aware
      verifier [reverseDSSEVerifier] and [VerifyAttestationCommand.Exec];
    - [pkg/cosign/rego/rego.go]: [ValidateJSON].

    Go byte slices and Go strings are both [string] (a list of bytes).
    A Go [error] is [option error]: [None] is the nil error. *)

From stdpp Require Import base option list strings gmap.
From Stdlib Require Import Ascii String ZArith Lia DecimalString DecimalZ DecimalPos DecimalFacts.

#[local] Set Warnings "-register-all".

#[local] Open Scope string_scope.

(** ** Go values shared by both packages *)

Module Go.

(** The error values the two files create, wrap or pass on.  A
    collaborator outside the two files may return any of them. *)
Inductive error : Type :=
| ErrHelp                                    (* flag.ErrHelp *)
| KeyParseError                              (* &options.KeyParseError{} *)
| errors_New (msg : string)                  (* errors.New(msg) *)
| errors_Wrap (cause : error) (msg : string) (* errors.Wrap(cause, msg) *)
| Foreign (origin msg : string).             (* made by a library *)

#[global] Instance error_eq_dec : EqDecision error.
Proof. solve_decision. Defined.

(** [(T, error)] results: exactly one side is set. *)
Inductive result (A : Type) : Type :=
| Ok (a : A)
| Err (e : error).
#[global] Arguments Ok {A} a.
#[global] Arguments Err {A} e.

End Go.
Export Go.

(** ** The envelope-aware verifier *)

Module Signature.

(** An [io.Reader] is the bytes it has left to deliver; a call that reads
    from it hands back what is left afterwards.  A nil reader is [None]. *)
Definition Reader : Type := option string.

Section Verifier.
(** [VerifyOption] values, and whatever a verifier keeps between calls
    (a key handle, a remote service). *)
Context {VerifyOption VState : Type}.

(** What a [VerifySignature] call leaves behind: the error, the two
    readers as the call left them, and the verifier's own state. *)
Record Verdict : Type := mkVerdict {
  verdict_err : option error;
  sig_left : Reader;
  msg_left : Reader;
  state_left : VState
}.

(** [signature.Verifier]: the one method the code calls. *)
Record Verifier : Type := mkVerifier {
  VerifySignature :
    Reader -> Reader -> list VerifyOption -> VState -> Verdict
}.

(** [type reverseDSSEVerifier struct { signature.Verifier }] with
    [[
    func (w *reverseDSSEVerifier) VerifySignature(s, m io.Reader, opts ...) error {
        return w.Verifier.VerifySignature(m, nil, opts...)
    }
    ]]
    The wrapped verifier gets [m] in its signature slot and nil in its
    message slot; [s] is handed to nobody, so it is left as it came. *)
Definition reverseDSSEVerifier (w : Verifier) : Verifier :=
  {| VerifySignature s m opts st :=
       let v := VerifySignature w m None opts st in
       {| verdict_err := verdict_err v;
          sig_left := s;
          msg_left := sig_left v;
          state_left := state_left v |} |}.

End Verifier.
#[global] Arguments Verdict : clear implicits.
#[global] Arguments Verifier : clear implicits.

End Signature.
Export Signature.

(** ** [encoding/json]: decoding into [interface{}] *)

Module Json.

(** What [Decode] stores in an [interface{}]: nil, bool, float64,
    [json.Number] (the literal's text), string, [[]interface{}] and
    [map[string]interface{}]. *)
Inductive value {float64 : Type} : Type :=
| Nil
| Bool (b : bool)
| Float64 (f : float64)
| Number (lit : string)
| Str (s : string)
| Slice (l : list value)
| Map (m : gmap string value).
#[global] Arguments value : clear implicits.

Definition code (c : ascii) : N := N_of_ascii c.
Definition byte (n : N) : ascii := ascii_of_N n.

Definition isSpace (c : ascii) : bool :=
  (code c =? 32)%N || (code c =? 9)%N || (code c =? 13)%N || (code c =? 10)%N.

Fixpoint skip_space (s : string) : string :=
  match s with
  | String c r => if isSpace c then skip_space r else s
  | EmptyString => EmptyString
  end.

Definition is_digit (c : ascii) : bool := (48 <=? code c)%N && (code c <=? 57)%N.

(** The longest run of digits in front of [s], and what follows it. *)
Fixpoint scan_digits (s : string) : string * string :=
  match s with
  | String c r =>
      if is_digit c then let '(d, r') := scan_digits r in (String c d, r')
      else (EmptyString, s)
  | EmptyString => (EmptyString, EmptyString)
  end.

Definition nonempty_digits (s : string) : option (string * string) :=
  match scan_digits s with
  | (EmptyString, _) => None
  | (d, r) => Some (d, r)
  end.

(** A number literal: an optional minus sign; a zero, or a digit from 1
    to 9 and then any digits; an optional point and digits; an optional
    exponent mark, sign and digits.  The literal ends at the first byte
    that cannot continue it. *)
Definition scan_sign (s : string) : string * string :=
  match s with
  | String c r => if Ascii.eqb c "-" then ("-", r) else (EmptyString, s)
  | EmptyString => (EmptyString, s)
  end.

Definition scan_int (s : string) : option (string * string) :=
  match s with
  | String c r =>
      if Ascii.eqb c "0" then Some ("0", r)
      else if is_digit c then Some (scan_digits s)
      else None
  | EmptyString => None
  end.

Definition scan_frac (s : string) : option (string * string) :=
  match s with
  | String c r =>
      if Ascii.eqb c "." then
        '(d, r') ← nonempty_digits r; Some (String c d, r')
      else Some (EmptyString, s)
  | EmptyString => Some (EmptyString, s)
  end.

Definition scan_exp (s : string) : option (string * string) :=
  match s with
  | String c r =>
      if Ascii.eqb c "e" || Ascii.eqb c "E" then
        let '(sg, r1) :=
          match r with
          | String c' r' =>
              if Ascii.eqb c' "+" || Ascii.eqb c' "-"
              then (String c' EmptyString, r') else (EmptyString, r)
          | EmptyString => (EmptyString, r)
          end in
        '(d, r2) ← nonempty_digits r1; Some (String c (sg +:+ d), r2)
      else Some (EmptyString, s)
  | EmptyString => Some (EmptyString, s)
  end.

Definition scan_number (s : string) : option (string * string) :=
  let '(sg, r0) := scan_sign s in
  '(i, r1) ← scan_int r0;
  '(f, r2) ← scan_frac r1;
  '(e, r3) ← scan_exp r2;
  Some (sg +:+ i +:+ f +:+ e, r3).

(** *** String literals *)

Definition hexval (c : ascii) : option N :=
  let n := code c in
  if (48 <=? n)%N && (n <=? 57)%N then Some (n - 48)%N
  else if (97 <=? n)%N && (n <=? 102)%N then Some (n - 87)%N
  else if (65 <=? n)%N && (n <=? 70)%N then Some (n - 55)%N
  else None.

(** [getu4]: the code unit written by four hexadecimal digits. *)
Definition getu4 (h1 h2 h3 h4 : ascii) : option N :=
  a ← hexval h1; b ← hexval h2; c ← hexval h3; d ← hexval h4;
  Some (a * 4096 + b * 256 + c * 16 + d)%N.

Definition ReplacementChar : N := 65533.
Definition is_surrogate (r : N) : bool := (55296 <=? r)%N && (r <? 57344)%N.

(** [utf16.DecodeRune]: a high and a low surrogate make one code point,
    anything else the replacement character. *)
Definition utf16_DecodeRune (r1 r2 : N) : N :=
  if (55296 <=? r1)%N && (r1 <? 56320)%N && (56320 <=? r2)%N && (r2 <? 57344)%N
  then ((r1 - 55296) * 1024 + (r2 - 56320) + 65536)%N
  else ReplacementChar.

(** [utf8.EncodeRune] on a code point below 0x110000 that is not a
    surrogate. *)
Definition utf8_EncodeRune (r : N) : string :=
  if (r <? 128)%N then String (byte r) EmptyString
  else if (r <? 2048)%N then
    String (byte (192 + r / 64)) (String (byte (128 + r mod 64)) EmptyString)
  else if (r <? 65536)%N then
    String (byte (224 + r / 4096))
      (String (byte (128 + (r / 64) mod 64))
         (String (byte (128 + r mod 64)) EmptyString))
  else
    String (byte (240 + r / 262144))
      (String (byte (128 + (r / 4096) mod 64))
         (String (byte (128 + (r / 64) mod 64))
            (String (byte (128 + r mod 64)) EmptyString))).

(** The byte a one-letter escape stands for. *)
Definition unescape (e : ascii) : option ascii :=
  let n := code e in
  if (n =? 34)%N || (n =? 92)%N || (n =? 47)%N then Some e
  else if (n =? 98)%N then Some (byte 8)
  else if (n =? 102)%N then Some (byte 12)
  else if (n =? 110)%N then Some (byte 10)
  else if (n =? 114)%N then Some (byte 13)
  else if (n =? 116)%N then Some (byte 9)
  else None.

Definition is_quote (c : ascii) : bool := (code c =? 34)%N.
Definition is_backslash (c : ascii) : bool := (code c =? 92)%N.

(** The low half of a surrogate pair, when [s] starts with one. *)
Definition low_surrogate (hi : N) (b u g1 g2 g3 g4 : ascii) : option N :=
  if is_backslash b && (code u =? 117)%N then
    lo ← getu4 g1 g2 g3 g4;
    let r := utf16_DecodeRune hi lo in
    if (r =? ReplacementChar)%N then None else Some r
  else None.

(** [utf8.DecodeRune] on a byte from 0x80 on: whether the bytes that
    follow complete a well-formed sequence of two, three or four bytes. *)
Definition continuation (b : ascii) : bool := (128 <=? code b)%N && (code b <=? 191)%N.

Definition two_bytes (c b1 : ascii) : bool :=
  (194 <=? code c)%N && (code c <=? 223)%N && continuation b1.

Definition three_bytes (c b1 b2 : ascii) : bool :=
  let n := code c in
  let m := code b1 in
  ((n =? 224)%N && (160 <=? m)%N && (m <=? 191)%N
   || (225 <=? n)%N && (n <=? 236)%N && continuation b1
   || (n =? 237)%N && (128 <=? m)%N && (m <=? 159)%N
   || (238 <=? n)%N && (n <=? 239)%N && continuation b1)
  && continuation b2.

Definition four_bytes (c b1 b2 b3 : ascii) : bool :=
  let n := code c in
  let m := code b1 in
  ((n =? 240)%N && (144 <=? m)%N && (m <=? 191)%N
   || (241 <=? n)%N && (n <=? 243)%N && continuation b1
   || (n =? 244)%N && (128 <=? m)%N && (m <=? 143)%N)
  && continuation b2 && continuation b3.

(** A string literal after its opening quote: the string it denotes
    (escapes undone and bytes that are not UTF-8 replaced, as [unquote]
    does) and what follows the closing quote. *)
Fixpoint scan_string (s : string) : option (string * string) :=
  match s with
  | EmptyString => None
  | String c r =>
      if is_quote c then Some (EmptyString, r)
      else if is_backslash c then
        match r with
        | EmptyString => None
        | String e r1 =>
            if (code e =? 117)%N then
              match r1 with
              | String h1 (String h2 (String h3 (String h4 r5))) =>
                  rr ← getu4 h1 h2 h3 h4;
                  if is_surrogate rr then
                    match r5 with
                    | String b (String u (String g1 (String g2 (String g3 (String g4 r11))))) =>
                        match low_surrogate rr b u g1 g2 g3 g4 with
                        | Some dec =>
                            '(t, rest) ← scan_string r11;
                            Some (utf8_EncodeRune dec +:+ t, rest)
                        | None =>
                            '(t, rest) ← scan_string r5;
                            Some (utf8_EncodeRune ReplacementChar +:+ t, rest)
                        end
                    | _ =>
                        '(t, rest) ← scan_string r5;
                        Some (utf8_EncodeRune ReplacementChar +:+ t, rest)
                    end
                  else
                    '(t, rest) ← scan_string r5;
                    Some (utf8_EncodeRune rr +:+ t, rest)
              | _ => None
              end
            else
              b ← unescape e;
              '(t, rest) ← scan_string r1;
              Some (String b t, rest)
        end
      else if (code c <? 32)%N then None
      else if (code c <? 128)%N then
        '(t, rest) ← scan_string r; Some (String c t, rest)
      else
        match r with
        | String b1 r1 =>
            if two_bytes c b1 then
              '(t, rest) ← scan_string r1; Some (String c (String b1 t), rest)
            else
              match r1 with
              | String b2 r2 =>
                  if three_bytes c b1 b2 then
                    '(t, rest) ← scan_string r2;
                    Some (String c (String b1 (String b2 t)), rest)
                  else
                    match r2 with
                    | String b3 r3 =>
                        if four_bytes c b1 b2 b3 then
                          '(t, rest) ← scan_string r3;
                          Some (String c (String b1 (String b2 (String b3 t))), rest)
                        else
                          '(t, rest) ← scan_string r;
                          Some (utf8_EncodeRune ReplacementChar +:+ t, rest)
                    | EmptyString =>
                        '(t, rest) ← scan_string r;
                        Some (utf8_EncodeRune ReplacementChar +:+ t, rest)
                    end
              | EmptyString =>
                  '(t, rest) ← scan_string r;
                  Some (utf8_EncodeRune ReplacementChar +:+ t, rest)
              end
        | EmptyString =>
            '(t, rest) ← scan_string r;
            Some (utf8_EncodeRune ReplacementChar +:+ t, rest)
        end
  end.

(** *** Values *)

Definition SyntaxError (msg : string) : error := Foreign "encoding/json" msg.
Definition ErrUnexpectedEOF : error := Foreign "io" "unexpected EOF".
Definition EOF : error := Foreign "io" "EOF".

(** The scanner refuses more than this many open arrays and objects. *)
Definition maxNestingDepth : N := 10000.

Fixpoint strip_prefix (p s : string) : option string :=
  match p, s with
  | EmptyString, _ => Some s
  | String a p', String b s' => if Ascii.eqb a b then strip_prefix p' s' else None
  | String _ _, EmptyString => None
  end.

Section Decode.
Context {float64 : Type}.
(** [strconv.ParseFloat(lit, 64)], [None] when it reports an error. *)
Variable ParseFloat : string -> option float64.
(** The decoder's [UseNumber] setting. *)
Variable useNumber : bool.

(** [convertNumber]: with [UseNumber] the literal is kept as it is
    written, otherwise it becomes a float64. *)
Definition convertNumber (lit : string) : result (value float64) :=
  if useNumber then Ok (Number lit)
  else match ParseFloat lit with
       | Some f => Ok (Float64 f)
       | None => Err (Foreign "encoding/json" ("cannot unmarshal number " +:+ lit))
       end.

Definition literal (name : string) (v : value float64) (s : string)
  : result (value float64 * string) :=
  match strip_prefix name s with
  | Some r => Ok (v, r)
  | None => Err (SyntaxError "invalid character in literal")
  end.

(** One value in front of [s], after white space; [depth] counts the
    arrays and objects that are open.  The first argument bounds the
    number of nested calls: [None] means it was too small. *)
Fixpoint decode_value (n : nat) (depth : N) (s : string) {struct n}
  : option (result (value float64 * string)) :=
  match n with
  | O => None
  | S n =>
      match skip_space s with
      | EmptyString => Some (Err ErrUnexpectedEOF)
      | String c r as s' =>
          if (code c =? 123)%N then
            if (depth <? maxNestingDepth)%N then
              match skip_space r with
              | String c' r' =>
                  if (code c' =? 125)%N then Some (Ok (Map ∅, r'))
                  else decode_members n (depth + 1)%N r ∅
              | EmptyString => Some (Err ErrUnexpectedEOF)
              end
            else Some (Err (SyntaxError "exceeded max depth"))
          else if (code c =? 91)%N then
            if (depth <? maxNestingDepth)%N then
              match skip_space r with
              | String c' r' =>
                  if (code c' =? 93)%N then Some (Ok (Slice [], r'))
                  else decode_elems n (depth + 1)%N r []
              | EmptyString => Some (Err ErrUnexpectedEOF)
              end
            else Some (Err (SyntaxError "exceeded max depth"))
          else if is_quote c then
            match scan_string r with
            | Some (t, r') => Some (Ok (Str t, r'))
            | None => Some (Err (SyntaxError "invalid string literal"))
            end
          else if (code c =? 116)%N then Some (literal "true" (Bool true) s')
          else if (code c =? 102)%N then Some (literal "false" (Bool false) s')
          else if (code c =? 110)%N then Some (literal "null" Nil s')
          else if (code c =? 45)%N || is_digit c then
            match scan_number s' with
            | Some (lit, r') =>
                match convertNumber lit with
                | Ok v => Some (Ok (v, r'))
                | Err e => Some (Err e)
                end
            | None => Some (Err (SyntaxError "invalid number literal"))
            end
          else Some (Err (SyntaxError "invalid character looking for beginning of value"))
      end
  end
with decode_elems (n : nat) (depth : N) (s : string) (acc : list (value float64))
       {struct n} : option (result (value float64 * string)) :=
  match n with
  | O => None
  | S n =>
      match decode_value n depth s with
      | Some (Ok (v, r)) =>
          match skip_space r with
          | String c r' =>
              if (code c =? 44)%N then decode_elems n depth r' (acc ++ [v])
              else if (code c =? 93)%N then Some (Ok (Slice (acc ++ [v]), r'))
              else Some (Err (SyntaxError "invalid character after array element"))
          | EmptyString => Some (Err ErrUnexpectedEOF)
          end
      | other => other
      end
  end
with decode_members (n : nat) (depth : N) (s : string) (m : gmap string (value float64))
       {struct n} : option (result (value float64 * string)) :=
  match n with
  | O => None
  | S n =>
      match skip_space s with
      | EmptyString => Some (Err ErrUnexpectedEOF)
      | String q r =>
          if is_quote q then
            match scan_string r with
            | None => Some (Err (SyntaxError "invalid string literal"))
            | Some (k, r1) =>
                match skip_space r1 with
                | EmptyString => Some (Err ErrUnexpectedEOF)
                | String c r2 =>
                    if (code c =? 58)%N then
                      match decode_value n depth r2 with
                      | Some (Ok (v, r3)) =>
                          match skip_space r3 with
                          | String c' r4 =>
                              if (code c' =? 44)%N
                              then decode_members n depth r4 (<[k:=v]> m)
                              else if (code c' =? 125)%N
                              then Some (Ok (Map (<[k:=v]> m), r4))
                              else Some (Err (SyntaxError "invalid character after object key:value pair"))
                          | EmptyString => Some (Err ErrUnexpectedEOF)
                          end
                      | other => other
                      end
                    else Some (Err (SyntaxError "invalid character after object key"))
                end
            end
          else Some (Err (SyntaxError "invalid character looking for beginning of object key string"))
      end
  end.

End Decode.

(** *** The streaming decoder *)

Record Decoder : Type := mkDecoder {
  buf : string;          (* what the reader has left *)
  useNumber : bool
}.

(** [json.NewDecoder(r)]. *)
Definition NewDecoder (r : string) : Decoder := {| buf := r; useNumber := false |}.

(** [dec.UseNumber()]. *)
Definition UseNumber (dec : Decoder) : Decoder :=
  {| buf := buf dec; useNumber := true |}.

(** Nested calls never outnumber twice the bytes plus one. *)
Definition calls (s : string) : nat := S (2 * String.length s).

(** [dec.Decode(&input)] for [var input interface{}]: the next value of
    the stream, and the decoder with that value consumed.  Input that
    holds white space only is [io.EOF]. *)
Definition Decode {float64 : Type} (ParseFloat : string -> option float64)
    (dec : Decoder) : result (value float64) * Decoder :=
  match skip_space (buf dec) with
  | EmptyString => (Err EOF, {| buf := EmptyString; useNumber := useNumber dec |})
  | s =>
      match decode_value ParseFloat (useNumber dec) (calls s) 0 s with
      | Some (Ok (v, r)) => (Ok v, {| buf := r; useNumber := useNumber dec |})
      | Some (Err e) => (Err e, dec)
      | None => (Err (SyntaxError "input too long"), dec)
      end
  end.

(** *** Documents, to state what the decoder does with integers *)

(** A JSON document whose numbers are integers. *)
Inductive doc : Type :=
| DNull
| DBool (b : bool)
| DInt (z : Z)
| DStr (s : string)
| DArr (l : list doc)
| DObj (l : list (string * doc)).

(** An integer in decimal digits, and the integer a literal of digits
    writes. *)
Definition decimal (z : Z) : string := NilZero.string_of_int (Z.to_int z).

Definition quote : ascii := byte 34.

(** The text of a document, without white space, in front of [rest]. *)
Definition tail_to (f : doc -> string -> string) : list doc -> string -> string :=
  fix tail xs rest :=
    match xs with
    | [] => String "]" rest
    | y :: ys => String "," (f y (tail ys rest))
    end.

Definition member_to (f : doc -> string -> string) (kv : string * doc) (rest : string)
  : string :=
  String quote (kv.1 +:+ String quote (String ":" (f kv.2 rest))).

Definition members_to (f : doc -> string -> string)
  : list (string * doc) -> string -> string :=
  fix tail xs rest :=
    match xs with
    | [] => String "}" rest
    | kv :: ys => String "," (member_to f kv (tail ys rest))
    end.

Fixpoint render_to (d : doc) (rest : string) : string :=
  match d with
  | DNull => "null" +:+ rest
  | DBool b => (if b then "true" else "false") +:+ rest
  | DInt z => decimal z +:+ rest
  | DStr s => String quote (s +:+ String quote rest)
  | DArr l =>
      match l with
      | [] => String "[" (String "]" rest)
      | x :: xs => String "[" (render_to x (tail_to render_to xs rest))
      end
  | DObj l =>
      match l with
      | [] => String "{" (String "}" rest)
      | kv :: xs => String "{" (member_to render_to kv (members_to render_to xs rest))
      end
  end.

Definition render (d : doc) : string := render_to d EmptyString.

(** The value a document decodes to with [UseNumber]: every integer is
    the [json.Number] of its digits; of two members with one key the
    later stays. *)
Fixpoint value_of_doc {float64 : Type} (d : doc) : value float64 :=
  match d with
  | DNull => Nil
  | DBool b => Bool b
  | DInt z => Number (decimal z)
  | DStr s => Str s
  | DArr l => Slice (map value_of_doc l)
  | DObj l => Map (foldl (fun m kv => <[kv.1 := value_of_doc kv.2]> m) ∅ l)
  end.

(** Strings that are copied as they are: ASCII without quote, backslash
    and control bytes. *)
Definition plain_char (c : ascii) : bool :=
  (32 <=? code c)%N && (code c <? 128)%N && negb (is_quote c) && negb (is_backslash c).

Fixpoint plain (s : string) : bool :=
  match s with
  | EmptyString => true
  | String c r => plain_char c && plain r
  end.

Fixpoint well_formed (d : doc) : bool :=
  match d with
  | DStr s => plain s
  | DArr l => forallb well_formed l
  | DObj l => forallb (fun kv => plain kv.1 && well_formed kv.2) l
  | _ => true
  end.

(** Nesting depth, and a bound on the nested calls that decode a
    document. *)
Fixpoint height (d : doc) : N :=
  match d with
  | DArr l => 1 + foldr (fun x h => N.max (height x) h) 0%N l
  | DObj l => 1 + foldr (fun kv h => N.max (height kv.2) h) 0%N l
  | _ => 0
  end.

Fixpoint weight (d : doc) : nat :=
  match d with
  | DArr l => 1 + foldr (fun x w => 1 + weight x + w) 0 l
  | DObj l => 1 + foldr (fun kv w => 1 + weight kv.2 + w) 0 l
  | _ => 1
  end.

(** [rest] cannot continue a number literal. *)
Definition number_stop (rest : string) : bool :=
  match rest with
  | EmptyString => true
  | String c _ =>
      negb (is_digit c || Ascii.eqb c "." || Ascii.eqb c "e" || Ascii.eqb c "E")
  end.

(** A value that holds no float64: every number in it is still the
    text of its literal. *)
Inductive exact {float64 : Type} : value float64 -> Prop :=
| exact_Nil : exact Nil
| exact_Bool b : exact (Bool b)
| exact_Number lit : exact (Number lit)
| exact_Str s : exact (Str s)
| exact_Slice l : Forall exact l -> exact (Slice l)
| exact_Map m : map_Forall (fun _ v => exact v) m -> exact (Map m).

(** A body that holds white space only. *)
Fixpoint blank (s : string) : bool :=
  match s with
  | EmptyString => true
  | String c r => isSpace c && blank r
  end.

(** A result that is there, and whose rest is shorter than [s]. *)
Definition shrinks {float64 : Type} (s : string)
    (res : option (result (value float64 * string))) : Prop :=
  exists x, res = Some x /\
    forall v r, x = Ok (v, r) -> String.length r < String.length s.

(** With [UseNumber], the text of [d] decodes to [value_of_doc d]. *)
Definition decodes {float64 : Type} (ParseFloat : string -> option float64) (d : doc)
  : Prop :=
  well_formed d = true ->
  forall n depth rest,
    weight d <= n -> (depth + height d <= maxNestingDepth)%N -> number_stop rest = true ->
    decode_value ParseFloat true n depth (render_to d rest)
    = Some (Ok (value_of_doc d, rest)).

End Json.

(** ** [pkg/cosign/rego]: the query-based policy evaluator *)

Module Rego.
Import Json.

Section Engine.
Context {float64 : Type}.

(** [rego.ExpressionValue], [rego.Result] and [rego.ResultSet] of the
    policy engine, with the fields [Allowed] looks at. *)
Record ExpressionValue : Type := mkExpressionValue {
  Value : value float64;
  Text : string
}.

Record Result : Type := mkResult {
  Expressions : list ExpressionValue;
  Bindings : gmap string (value float64)
}.

Definition ResultSet : Type := list Result.

(** [rs.Allowed()] as the engine documents it: the set has one result,
    that result binds no variable and has one expression, and the
    expression's value is the boolean true. *)
Definition Allowed (rs : ResultSet) : bool :=
  match rs with
  | [r] =>
      if (size (Bindings r) =? 0)%nat then
        match Expressions r with
        | [e] => match Value e with Bool b => b | _ => false end
        | _ => false
        end
      else false
  | _ => false
  end.

(** [rego.New(rego.Query(q), rego.Load(paths, nil))]. *)
Record Rego : Type := New {
  Query : string;
  Load : list string
}.

(** The engine itself is not part of the package: preparing a query
    reads and compiles the policy sources, evaluating runs it on an
    input. *)
Class Engine : Type := {
  PreparedEvalQuery : Type;
  PrepareForEval : Rego -> result PreparedEvalQuery;
  Eval : PreparedEvalQuery -> value float64 -> result ResultSet;
  (** [strconv.ParseFloat], which [encoding/json] uses without
      [UseNumber]. *)
  ParseFloat : string -> option float64
}.

(** What [ValidateJSON] asks of the engine, in order. *)
Inductive call : Type :=
| CallPrepareForEval (r : Rego)
| CallEval (input : value float64).

Context {E : Engine}.

(** [ValidateJSON(jsonBody, entrypoints)]: the error returned and the
    calls made. *)
Definition ValidateJSON (jsonBody : string) (entrypoints : list string)
  : option error * list call :=
  let r := New "data.signature.allow" entrypoints in
  match PrepareForEval r with
  | Err err => (Some err, [CallPrepareForEval r])
  | Ok query =>
      let dec := NewDecoder jsonBody in
      let dec := UseNumber dec in
      match fst (Decode ParseFloat dec) with
      | Err err => (Some err, [CallPrepareForEval r])
      | Ok input =>
          match Eval query input with
          | Err err => (Some err, [CallPrepareForEval r; CallEval input])
          | Ok rs =>
              if Allowed rs then (None, [CallPrepareForEval r; CallEval input])
              else (Some (errors_New "rego validation failed"),
                    [CallPrepareForEval r; CallEval input])
          end
      end
  end.

End Engine.
#[global] Arguments Engine : clear implicits.
#[global] Arguments ResultSet : clear implicits.
#[global] Arguments Result : clear implicits.
#[global] Arguments ExpressionValue : clear implicits.
#[global] Arguments call : clear implicits.

(** *** Terms for the properties of the evaluator *)


(** The error of a policy that does not allow the input. *)
Definition denial : error := errors_New "rego validation failed".

Section Outcome.
Context {float64 : Type} {E : Engine float64}.


(** The query ran on the input and its result set is [rs]. *)
Definition evaluates_to (jsonBody : string) (entrypoints : list string)
    (rs : ResultSet float64) : Prop :=
  exists query input,
    PrepareForEval (New "data.signature.allow" entrypoints) = Ok query /\
    (Decode ParseFloat (UseNumber (NewDecoder jsonBody))).1 = Ok input /\
    Eval query input = Ok rs.



End Outcome.

End Rego.

(** ** [cmd/cosign/cli/verify]: the attestation verification command *)

Module Verify.
Import Json.

(** *** Types of the packages the command uses *)

(** [cosign.CheckOpts], with the fields [Exec] sets. *)
Inductive ClaimVerifier : Type := IntotoSubjectClaimVerifier.

Record CheckOpts {RemoteOpts CertPool SigVerifier : Type} : Type := mkCheckOpts {
  RegistryClientOpts : RemoteOpts;
  ClaimVerifier_ : option ClaimVerifier;
  RekorURL_ : string;
  RootCerts : option CertPool;
  SigVerifier_ : option SigVerifier
}.
#[global] Arguments CheckOpts : clear implicits.

(** [in_toto.Subject], [in_toto.StatementHeader] and the four statement
    types, which differ in the type of [Predicate] only. *)
Record Subject : Type := mkSubject {
  Name : string;
  Digest : gmap string string
}.

Record StatementHeader : Type := mkStatementHeader {
  Type_ : string;
  PredicateType_ : string;
  Subject_ : list Subject
}.

Record StatementOf (P : Type) : Type := mkStatement {
  Header : StatementHeader;
  Predicate : P
}.
#[global] Arguments mkStatement {P}.
#[global] Arguments Header {P}.
#[global] Arguments Predicate {P}.

(** *** The command *)

Record VerifyAttestationCommand {RegistryOptions : Type} : Type := mkCommand {
  RegistryOptions_ : RegistryOptions;
  CheckClaims : bool;
  KeyRef : string;
  Sk : bool;
  Slot : string;
  Output : string;
  FulcioURL : string;
  RekorURL : string;
  PredicateType : string;
  Policies : list string
}.
#[global] Arguments VerifyAttestationCommand : clear implicits.

(** *** Constants and helpers of [cmd/cosign/cli/options] *)

(** Modelled from the spec: the predicate-type names of the options
    package, which is not among the sources; the spec lists the four
    recognised identifiers custom, link, slsaprovenance and spdx. *)
Definition PredicateCustom : string := "custom".
Definition PredicateLink : string := "link".
Definition PredicateSLSA : string := "slsaprovenance".
Definition PredicateSPDX : string := "spdx".

(** Modelled from the spec: [options.OneOf] is not among the sources.
    Keyless mode is "no explicit key or hardware slot supplied"; by its
    name the helper holds when exactly one of its arguments is set, a
    string that is not empty or a flag that is true. *)
Definition OneOf (keyRef : string) (sk : bool) : bool :=
  xorb (negb (String.eqb keyRef EmptyString)) sk.

(** *** What lies outside the file *)

(** The types of the packages [Exec] uses, and the state of the world
    its calls act on: registry, token, file system, environment,
    terminal. *)
Class Types : Type := {
  World : Type;
  float64 : Type;
  VerifyOption : Type;
  RegistryOptions : Type;
  RemoteOpts : Type;
  CertPool : Type;
  Reference : Type;
  OciSignature : Type;
  Key : Type;
  Link : Type;
  ProvenancePredicate : Type
}.

(** The collaborators [Exec] calls.  Those that reach the world take
    its state and hand it back; the others are functions of their
    arguments. *)
Class Externals {T : Types} : Type := {
  (* options.EnableExperimental() and options.PredicateTypeMap *)
  EnableExperimental : World -> bool;
  PredicateTypeMap : gmap string string;
  (* c.ClientOpts(ctx) *)
  ClientOpts : RegistryOptions -> World -> result RemoteOpts * World;
  (* fulcio.GetRoots() *)
  GetRoots : World -> CertPool * World;
  (* sigs.PublicKeyFromKeyRef(ctx, keyRef) *)
  PublicKeyFromKeyRef :
    string -> World -> result (Verifier VerifyOption World) * World;
  (* pivkey.GetKeyWithSlot(slot), sk.Close(), sk.Verifier() *)
  GetKeyWithSlot : string -> World -> result Key * World;
  Close : Key -> World -> World;
  Key_Verifier : Key -> World -> result (Verifier VerifyOption World) * World;
  (* dsse.WrapVerifier(v) *)
  WrapVerifier :
    option (Verifier VerifyOption World) -> Verifier VerifyOption World;
  (* name.ParseReference(imageRef) *)
  ParseReference : string -> result Reference;
  (* cosign.VerifyAttestations(ctx, ref, co) *)
  VerifyAttestations :
    Reference -> CheckOpts RemoteOpts CertPool (Verifier VerifyOption World) ->
    World -> result (list OciSignature * bool) * World;
  (* vp.Payload() *)
  Payload : OciSignature -> World -> result string * World;
  (* json.Unmarshal into map[string]interface{} and into the statements *)
  Unmarshal_map : string -> result (gmap string (value float64));
  Unmarshal_Statement : string -> result (StatementOf (value float64));
  Unmarshal_LinkStatement : string -> result (StatementOf Link);
  Unmarshal_ProvenanceStatement : string -> result (StatementOf ProvenancePredicate);
  Unmarshal_SPDXStatement : string -> result (StatementOf (value float64));
  (* json.Marshal of a predicate *)
  Marshal_any : value float64 -> result string;
  Marshal_Link : Link -> result string;
  Marshal_ProvenancePredicate : ProvenancePredicate -> result string;
  (* base64.StdEncoding.DecodeString(s) *)
  DecodeString : string -> result string;
  (* cue.ValidateJSON(payload, policies) *)
  cue_ValidateJSON : string -> list string -> World -> option error * World;
  (* PrintVerificationHeader and PrintVerification *)
  PrintVerificationHeader :
    string -> CheckOpts RemoteOpts CertPool (Verifier VerifyOption World) ->
    bool -> World -> World;
  PrintVerification : string -> list OciSignature -> string -> World -> World
}.

Section Control.
Context {T : Types}.

Abbreviation SigVerifier := (Verifier VerifyOption World).
Abbreviation Opts := (CheckOpts RemoteOpts CertPool SigVerifier).
Abbreviation any := (value float64).
Abbreviation Command := (VerifyAttestationCommand RegistryOptions).

(** The statement types of [in_toto]. *)
Definition Statement : Type := StatementOf any.
Definition LinkStatement : Type := StatementOf Link.
Definition ProvenanceStatement : Type := StatementOf ProvenancePredicate.
Definition SPDXStatement : Type := StatementOf any.

(** A predicate on its way to [json.Marshal]. *)
Inductive predicate : Type :=
| CustomPredicate (p : any)
| LinkPredicate (p : Link)
| SLSAPredicate (p : ProvenancePredicate)
| SPDXPredicate (p : any).

(** The four targets of the statement [json.Unmarshal]. *)
Inductive target : Type :=
| IntoStatement | IntoLinkStatement | IntoProvenanceStatement | IntoSPDXStatement.

(** A call that leaves [Exec], with its arguments.  The options
    package's [OneOf], [EnableExperimental] and [PredicateTypeMap]
    are read without a record. *)
Inductive call : Type :=
| CallClientOpts
| CallGetRoots
| CallPublicKeyFromKeyRef (keyRef : string)
| CallGetKeyWithSlot (slot : string)
| CallClose (sk : Key)
| CallKeyVerifier (sk : Key)
| CallParseReference (imageRef : string)
| CallVerifyAttestations (ref : Reference) (co : Opts)
| CallPayload (vp : OciSignature)
| CallUnmarshalEnvelope (payload : string)
| CallDecodeString (s : string)
| CallUnmarshalStatement (into : target) (data : string)
| CallMarshal (p : predicate)
| CallValidateJSON (payload : string) (policies : list string)
| CallPrintVerificationHeader (imageRef : string) (co : Opts) (bundleVerified : bool)
| CallPrintVerification (imageRef : string) (verified : list OciSignature)
    (output : string).

(** *** Control flow and state *)

(** A call registered by [defer]. *)
Inductive deferred : Type := DeferClose (sk : Key).

Record state : Type := mkState {
  world : World;
  log : list call;            (* calls so far, oldest first *)
  defers : list deferred      (* registered so far, newest first *)
}.

(** A step goes on with a value, leaves [Exec] by [return err], or
    panics. *)
Inductive flow (A : Type) : Type :=
| Next (a : A)
| Return (err : error)
| Panic (msg : string).
#[global] Arguments Next {A} a.
#[global] Arguments Return {A} err.
#[global] Arguments Panic {A} msg.

Definition M (A : Type) : Type := state -> flow A * state.

Definition ret {A} (a : A) : M A := fun st => (Next a, st).

Definition bind {A B} (m : M A) (k : A -> M B) : M B :=
  fun st =>
    match m st with
    | (Next a, st') => k a st'
    | (Return err, st') => (Return err, st')
    | (Panic msg, st') => (Panic msg, st')
    end.

Definition return_ {A} (err : error) : M A := fun st => (Return err, st).
Definition panic {A} (msg : string) : M A := fun st => (Panic msg, st).

Definition record (c : call) : M unit :=
  fun st => (Next tt, {| world := world st; log := log st ++ [c]; defers := defers st |}).

Definition defer (d : deferred) : M unit :=
  fun st => (Next tt, {| world := world st; log := log st; defers := d :: defers st |}).

(** A call that uses the world. *)
Definition invoke {A} (c : call) (f : World -> A * World) : M A :=
  fun st =>
    let '(a, w) := f (world st) in
    (Next a, {| world := w; log := log st ++ [c]; defers := defers st |}).

(** A call that is a function of its arguments. *)
Definition compute {A} (c : call) (a : A) : M A :=
  fun st => (Next a, {| world := world st; log := log st ++ [c]; defers := defers st |}).

#[local] Notation "m ';;' k" := (bind m (fun _ => k))
  (at level 100, k at level 200, right associativity).

(** [if err != nil { return wrap(err) }] after a call. *)
Definition check {A} (r : result A) (wrap : error -> error) : M A :=
  match r with
  | Ok a => ret a
  | Err err => return_ (wrap err)
  end.

(** [for _, x := range xs { body }]. *)
Fixpoint range {A} (xs : list A) (body : A -> M unit) : M unit :=
  match xs with
  | [] => ret tt
  | x :: xs' => body x ;; range xs' body
  end.

(** *** Go expressions on [interface{}] values *)

(** [m[k]] on a [map[string]string]: the zero value when [k] is missing. *)
Definition index_string (m : gmap string string) (k : string) : string :=
  default EmptyString (m !! k).

(** [m[k]] on a [map[string]interface{}]: nil when [k] is missing. *)
Definition index_any (m : gmap string any) (k : string) : any :=
  default Nil (m !! k).

(** [s != v] for a string [s] and an interface value [v]: they are
    equal when [v] holds a string with the bytes of [s]. *)
Definition string_neq_any (s : string) (v : any) : bool :=
  match v with
  | Str t => negb (String.eqb s t)
  | _ => true
  end.

Definition dynamic_type (v : any) : string :=
  match v with
  | Nil => "nil"
  | Bool _ => "bool"
  | Float64 _ => "float64"
  | Number _ => "json.Number"
  | Str _ => "string"
  | Slice _ => "[]interface {}"
  | Map _ => "map[string]interface {}"
  end.

(** [v.(string)]: panics unless [v] holds a string. *)
Definition assert_string (v : any) : M string :=
  match v with
  | Str s => ret s
  | _ => panic ("interface conversion: interface {} is " +:+ dynamic_type v +:+ ", not string")
  end.

(** [payload, _ := json.Marshal(x)]: the error is dropped, and with an
    error the bytes are nil. *)
Definition marshalled (r : result string) : string :=
  match r with
  | Ok b => b
  | Err _ => EmptyString
  end.

(** How a call of [Exec] ends. *)
Inductive exit : Type :=
| Returned (err : option error)
| Panicked (msg : string).

End Control.

Section Exec.
Context {T : Types} {X : Externals}.

#[local] Notation "'let*' x ':=' m 'in' k" := (bind m (fun x => k))
  (at level 10, x name, m at level 100, k at level 200).
#[local] Notation "m ';;' k" := (bind m (fun _ => k))
  (at level 100, k at level 200, right associativity).

Abbreviation SigVerifier := (Verifier VerifyOption World).
Abbreviation Opts := (CheckOpts RemoteOpts CertPool SigVerifier).
Abbreviation any := (value float64).
Abbreviation Command := (VerifyAttestationCommand RegistryOptions).

(** [options.EnableExperimental()]. *)
Definition experimental : M bool :=
  fun st => (Next (EnableExperimental (world st)), st).

(** [if err := cue.ValidateJSON(payload, c.Policies); err != nil { return err }]. *)
Definition validate (payload : string) (policies : list string) : M unit :=
  let* err := invoke (CallValidateJSON payload policies)
                (cue_ValidateJSON payload policies) in
  match err with
  | Some e => return_ e
  | None => ret tt
  end.

(** *** [Exec] *)

(** The body of [for _, vp := range verified]. *)
Definition forVerified (c : Command) (vp : OciSignature) : M unit :=
  let* r := invoke (CallPayload vp) (Payload vp) in
  let* payload := check r id in
  let* r := compute (CallUnmarshalEnvelope payload) (Unmarshal_map payload) in
  let* payloadData := check r id in
  if string_neq_any (index_string PredicateTypeMap (PredicateType c))
       (index_any payloadData "payloadType")
  then ret tt (* continue *)
  else
    let* s := assert_string (index_any payloadData "payload") in
    let* r := compute (CallDecodeString s) (DecodeString s) in
    let* decodedPayload := check r id in
    if String.eqb (PredicateType c) PredicateCustom then
      let* r := compute (CallUnmarshalStatement IntoStatement decodedPayload)
                  (Unmarshal_Statement decodedPayload) in
      let* cosignStatement := check r id in
      let* payload := compute (CallMarshal (CustomPredicate (Predicate cosignStatement)))
                        (marshalled (Marshal_any (Predicate cosignStatement))) in
      validate payload (Policies c)
    else if String.eqb (PredicateType c) PredicateLink then
      let* r := compute (CallUnmarshalStatement IntoLinkStatement decodedPayload)
                  (Unmarshal_LinkStatement decodedPayload) in
      let* linkStatement := check r id in
      let* payload := compute (CallMarshal (LinkPredicate (Predicate linkStatement)))
                        (marshalled (Marshal_Link (Predicate linkStatement))) in
      validate payload (Policies c)
    else if String.eqb (PredicateType c) PredicateSLSA then
      let* r := compute (CallUnmarshalStatement IntoProvenanceStatement decodedPayload)
                  (Unmarshal_ProvenanceStatement decodedPayload) in
      let* slsaProvenanceStatement := check r id in
      let* payload := compute (CallMarshal (SLSAPredicate (Predicate slsaProvenanceStatement)))
                        (marshalled (Marshal_ProvenancePredicate
                                       (Predicate slsaProvenanceStatement))) in
      validate payload (Policies c)
    else if String.eqb (PredicateType c) PredicateSPDX then
      let* r := compute (CallUnmarshalStatement IntoSPDXStatement decodedPayload)
                  (Unmarshal_SPDXStatement decodedPayload) in
      let* spdxStatement := check r id in
      let* payload := compute (CallMarshal (SPDXPredicate (Predicate spdxStatement)))
                        (marshalled (Marshal_any (Predicate spdxStatement))) in
      validate payload (Policies c)
    else ret tt (* default: continue *).

(** The body of [for _, imageRef := range images]. *)
Definition forImages (c : Command) (co : Opts) (imageRef : string) : M unit :=
  let* r := compute (CallParseReference imageRef) (ParseReference imageRef) in
  let* ref := check r id in
  let* r := invoke (CallVerifyAttestations ref co) (VerifyAttestations ref co) in
  let* checked := check r id in
  let '(verified, bundleVerified) := checked in
  range verified (forVerified c) ;;
  invoke (CallPrintVerificationHeader imageRef co bundleVerified)
    (fun w => (tt, PrintVerificationHeader imageRef co bundleVerified w)) ;;
  invoke (CallPrintVerification imageRef verified "text")
    (fun w => (tt, PrintVerification imageRef verified "text" w)).

(** The key of the run: [Some] verifier from the key reference or from
    the hardware token, nil in keyless mode. *)
Definition loadKey (c : Command) : M (option SigVerifier) :=
  let keyRef := KeyRef c in
  if negb (String.eqb keyRef EmptyString) then
    let* r := invoke (CallPublicKeyFromKeyRef keyRef) (PublicKeyFromKeyRef keyRef) in
    let* pubKey := check r (fun err => errors_Wrap err "loading public key") in
    ret (Some pubKey)
  else if Sk c then
    let* r := invoke (CallGetKeyWithSlot (Slot c)) (GetKeyWithSlot (Slot c)) in
    let* sk := check r (fun err => errors_Wrap err "opening piv token") in
    defer (DeferClose sk) ;;
    let* r := invoke (CallKeyVerifier sk) (Key_Verifier sk) in
    let* pubKey := check r (fun err => errors_Wrap err "initializing piv token verifier") in
    ret (Some pubKey)
  else ret None.

(** The statements of [Exec] between the check of the image list and
    the loop: the guard of keyless mode, the client options, the check
    options and the key; they give the check options of the loop. *)
Definition prepare (c : Command) : M Opts :=
  let* keyless :=
    if negb (OneOf (KeyRef c) (Sk c))
    then (let* e := experimental in ret (negb e))
    else ret false in
  if keyless then return_ KeyParseError
  else
    let* r := invoke CallClientOpts (ClientOpts (RegistryOptions_ c)) in
    let* ociremoteOpts :=
      check r (fun err => errors_Wrap err "constructing client options") in
    let claims := if CheckClaims c then Some IntotoSubjectClaimVerifier else None in
    let* e := experimental in
    let* trust :=
      if e then (let* roots := invoke CallGetRoots GetRoots in
                 ret (RekorURL c, Some roots))
      else ret (EmptyString, None) in
    let '(rekor, roots) := trust in
    let* pubKey := loadKey c in
    ret {| RegistryClientOpts := ociremoteOpts;
           ClaimVerifier_ := claims;
           RekorURL_ := rekor;
           RootCerts := roots;
           SigVerifier_ := Some (reverseDSSEVerifier (WrapVerifier pubKey)) |}.

(** The statements of [Exec] up to its exit. *)
Definition Exec_body (c : Command) (images : list string) : M unit :=
  if (List.length images =? 0)%nat then return_ ErrHelp
  else
    let* co := prepare c in
    range images (forImages c co).

(** The deferred calls run when the function is left, the newest
    first, whether it returns or panics. *)
Fixpoint run_deferred (ds : list deferred) (w : World) (l : list call)
  : World * list call :=
  match ds with
  | [] => (w, l)
  | DeferClose sk :: ds' => run_deferred ds' (Close sk w) (l ++ [CallClose sk])
  end.

(** [func (c *VerifyAttestationCommand) Exec(ctx, images) (err error)]:
    how it ends, the world it leaves and the calls it made. *)
Definition Exec (c : Command) (images : list string) (w : World)
  : exit * World * list call :=
  let '(f, st) := Exec_body c images {| world := w; log := []; defers := [] |} in
  let '(w', l) := run_deferred (defers st) (world st) (log st) in
  (match f with
   | Next _ => Returned None
   | Return err => Returned (Some err)
   | Panic msg => Panicked msg
   end, w', l).

End Exec.

(** *** Terms for the properties of the command *)

Section Terms.
Context {T : Types} {X : Externals}.

#[local] Abbreviation Command := (VerifyAttestationCommand RegistryOptions).

(** The state after more calls. *)
Definition logged (st : state) (w : World) (l : list call) : state :=
  {| world := w; log := (log st ++ l)%list; defers := defers st |}.

(** The predicate type the command asks for, as the envelope writes it. *)
Definition requested (c : Command) : string :=
  index_string PredicateTypeMap (PredicateType c).

(** An envelope that passes the filter, up to the decoded payload. *)
Definition passes (c : Command) (vp : OciSignature) (st : state) (payload : string)
    (w : World) (s decodedPayload : string) : Prop :=
  exists payloadData,
    Payload vp (world st) = (Ok payload, w) /\
    Unmarshal_map payload = Ok payloadData /\
    index_any payloadData "payloadType" = Str (requested c) /\
    index_any payloadData "payload" = Str s /\
    DecodeString s = Ok decodedPayload.

(** The calls up to the decoded payload. *)
Definition opened (vp : OciSignature) (payload s : string) : list call :=
  [CallPayload vp; CallUnmarshalEnvelope payload; CallDecodeString s].

(** The bytes of the evaluator calls among [l], and the targets of the
    statement parses among [l]. *)
Definition policy_inputs (l : list call) : list string :=
  omap (fun c => match c with CallValidateJSON payload _ => Some payload | _ => None end) l.

Definition statement_parses (l : list call) : list target :=
  omap (fun c => match c with CallUnmarshalStatement into _ => Some into | _ => None end) l.

(** The statement type the switch of [Exec] picks for a requested
    predicate type. *)
Definition branch (predicateType : string) : option target :=
  if String.eqb predicateType PredicateCustom then Some IntoStatement
  else if String.eqb predicateType PredicateLink then Some IntoLinkStatement
  else if String.eqb predicateType PredicateSLSA then Some IntoProvenanceStatement
  else if String.eqb predicateType PredicateSPDX then Some IntoSPDXStatement
  else None.

(** No call of [l] releases a token. *)
Definition no_close (l : list call) : Prop := forall sk, CallClose sk ∉ l.

(** The calls the deferred calls [ds] make when they run. *)
Definition releases (ds : list deferred) : list call :=
  map (fun d => match d with DeferClose sk => CallClose sk end) ds.

(** A step that registers no deferred call and releases no token. *)
Definition quiet {A : Type} (m : M A) : Prop :=
  forall st, exists l,
    no_close l /\ defers (m st).2 = defers st /\ log (m st).2 = (log st ++ l)%list.

End Terms.

(** *** Collaborators that write other statement headers *)

Section Retag.
Context {T : Types}.

(** The statement with its header rewritten: type, predicateType tag and
    subjects, all but the predicate. *)
Definition rehead {P : Type} (h : StatementHeader -> StatementHeader)
    (r : result (StatementOf P)) : result (StatementOf P) :=
  match r with
  | Ok stmt => Ok {| Header := h (Header stmt); Predicate := Predicate stmt |}
  | Err e => Err e
  end.

(** The same collaborators, except that every decoded statement has its
    header rewritten by [h]. *)
Definition retag (h : StatementHeader -> StatementHeader) (X : Externals) : Externals :=
  {| EnableExperimental := @EnableExperimental T X;
     PredicateTypeMap := @PredicateTypeMap T X;
     ClientOpts := @ClientOpts T X;
     GetRoots := @GetRoots T X;
     PublicKeyFromKeyRef := @PublicKeyFromKeyRef T X;
     GetKeyWithSlot := @GetKeyWithSlot T X;
     Close := @Close T X;
     Key_Verifier := @Key_Verifier T X;
     WrapVerifier := @WrapVerifier T X;
     ParseReference := @ParseReference T X;
     VerifyAttestations := @VerifyAttestations T X;
     Payload := @Payload T X;
     Unmarshal_map := @Unmarshal_map T X;
     Unmarshal_Statement data := rehead h (@Unmarshal_Statement T X data);
     Unmarshal_LinkStatement data := rehead h (@Unmarshal_LinkStatement T X data);
     Unmarshal_ProvenanceStatement data :=
       rehead h (@Unmarshal_ProvenanceStatement T X data);
     Unmarshal_SPDXStatement data := rehead h (@Unmarshal_SPDXStatement T X data);
     Marshal_any := @Marshal_any T X;
     Marshal_Link := @Marshal_Link T X;
     Marshal_ProvenancePredicate := @Marshal_ProvenancePredicate T X;
     DecodeString := @DecodeString T X;
     cue_ValidateJSON := @cue_ValidateJSON T X;
     PrintVerificationHeader := @PrintVerificationHeader T X;
     PrintVerification := @PrintVerification T X |}.

End Retag.

(** *** Terms for the calls of a run *)

Section Calls.
Context {T : Types} {X : Externals}.

#[local] Abbreviation Command := (VerifyAttestationCommand RegistryOptions).
#[local] Abbreviation Opts := (CheckOpts RemoteOpts CertPool (Verifier VerifyOption World)).

(** A step all of whose calls satisfy [P], and [Q] as well when the step
    goes on to the next statement. *)
Definition adds {A : Type} (P Q : call -> Prop) (m : M A) : Prop :=
  forall st, exists l,
    log (m st).2 = (log st ++ l)%list /\ Forall P l /\
    (forall a, (m st).1 = Next a -> Forall Q l).

(** The calls on the hardware token. *)
Definition token_call (x : call) : bool :=
  match x with
  | CallGetKeyWithSlot _ | CallKeyVerifier _ | CallClose _ => true
  | _ => false
  end.

(** The calls of the statements before the loop over the images. *)
Definition setup_call (x : call) : bool :=
  match x with
  | CallClientOpts | CallGetRoots | CallPublicKeyFromKeyRef _
  | CallGetKeyWithSlot _ | CallKeyVerifier _ => true
  | _ => false
  end.

(** The calls for one verified envelope. *)
Definition envelope_call (x : call) : bool :=
  match x with
  | CallPayload _ | CallUnmarshalEnvelope _ | CallDecodeString _
  | CallUnmarshalStatement _ _ | CallMarshal _ | CallValidateJSON _ _ => true
  | _ => false
  end.

Definition policy_call (x : call) : bool :=
  match x with
  | CallValidateJSON _ _ => true
  | _ => false
  end.

(** The images whose verification was printed, oldest first. *)
Definition printed (l : list call) : list string :=
  omap (fun x => match x with
                 | CallPrintVerification imageRef _ _ => Some imageRef
                 | _ => None
                 end) l.

(** Check options as [Exec] builds them for the command [c]: the claim
    verifier follows [CheckClaims], the signature verifier is the
    envelope-aware one around the wrapped key, which is nil exactly in
    keyless mode, and the transparency log and the roots are set
    together or not at all. *)
Definition built_for (c : Command) (co : Opts) : Prop :=
  ClaimVerifier_ co = (if CheckClaims c then Some IntotoSubjectClaimVerifier else None) /\
  (exists pubKey,
     SigVerifier_ co = Some (reverseDSSEVerifier (WrapVerifier pubKey)) /\
     (pubKey = None <-> KeyRef c = EmptyString /\ Sk c = false)) /\
  ((RekorURL_ co = RekorURL c /\ is_Some (RootCerts co)) \/
   (RekorURL_ co = EmptyString /\ RootCerts co = None)).

(** What a call of a run of [Exec] for the command [c] looks like. *)
Definition may (c : Command) (x : call) : Prop :=
  match x with
  | CallClientOpts | CallGetRoots | CallParseReference _
  | CallPayload _ | CallUnmarshalEnvelope _ | CallDecodeString _ => True
  | CallPublicKeyFromKeyRef keyRef => keyRef = KeyRef c /\ keyRef <> EmptyString
  | CallGetKeyWithSlot slot =>
      slot = Slot c /\ KeyRef c = EmptyString /\ Sk c = true
  | CallKeyVerifier _ | CallClose _ => KeyRef c = EmptyString /\ Sk c = true
  | CallVerifyAttestations _ co => built_for c co
  | CallUnmarshalStatement into _ => branch (PredicateType c) = Some into
  | CallMarshal _ => is_Some (branch (PredicateType c))
  | CallValidateJSON _ policies =>
      policies = Policies c /\ is_Some (branch (PredicateType c))
  | CallPrintVerificationHeader _ co _ => built_for c co
  | CallPrintVerification _ _ output => output = "text"
  end.

(** The command with other values in the fields [Output] and
    [FulcioURL]. *)
Definition with_output (c : Command) (output fulcioURL : string) : Command :=
  {| RegistryOptions_ := RegistryOptions_ c;
     CheckClaims := CheckClaims c;
     KeyRef := KeyRef c;
     Sk := Sk c;
     Slot := Slot c;
     Output := output;
     FulcioURL := fulcioURL;
     RekorURL := RekorURL c;
     PredicateType := PredicateType c;
     Policies := Policies c |}.

End Calls.

End Verify.

(** ** A small world to run the code in *)

Module Demo.
Import Json Rego Verify.

(** *** A policy engine *)

(** Policies are named by their path: the engine knows the path
    policy.rego, whose rule allows an input exactly when it is an
    object with the member Data equal to foo, and has nothing to say
    about anything else. *)
Definition allows (input : value unit) : bool :=
  match input with
  | Map m => match m !! "Data" with Some (Str s) => String.eqb s "foo" | _ => false end
  | _ => false
  end.

#[local] Instance engine : Engine unit := {|
  PreparedEvalQuery := string;
  PrepareForEval r :=
    match Load r with
    | ["policy.rego"] => Ok (Query r)
    | _ => Err (Foreign "rego" "1 error occurred during loading")
    end;
  Eval _ input :=
    Ok (if allows input
        then [ {| Expressions := [ {| Value := Bool true; Text := "data.signature.allow" |} ];
                  Bindings := ∅ |} ]
        else []);
  ParseFloat _ := Some tt
|}.



(** The predicate of the spec's scenario, with its member Data. *)
Definition data_doc (s : string) : doc := DObj [("Data", DStr s)].

(** *** Collaborators of the command *)

#[local] Instance types : Types := {|
  World := unit;
  float64 := unit;
  VerifyOption := unit;
  RegistryOptions := unit;
  RemoteOpts := unit;
  CertPool := unit;
  Reference := string;
  OciSignature := string;
  Key := nat;
  Link := unit;
  ProvenancePredicate := unit
|}.

Definition accept_all : Verifier unit unit :=
  {| VerifySignature s m _ w :=
       {| verdict_err := None; sig_left := s; msg_left := m; state_left := w |} |}.

Definition custom_uri : string := "cosign.sigstore.dev/attestation/v1".
Definition slsa_uri : string := "https://slsa.dev/provenance/v0.1".

Definition fetch_error : error := Foreign "remote" "connection refused".
Definition token_error : error := Foreign "pivkey" "no certificate in slot".

(** A statement about one subject whose own tag is the SLSA one. *)
Definition header : StatementHeader :=
  {| Type_ := "https://in-toto.io/Statement/v0.1";
     PredicateType_ := slsa_uri;
     Subject_ := [ {| Name := "example.com/app"; Digest := {[ "sha256" := "0a1b" ]} |} ] |}.

Definition statement : StatementOf (value unit) :=
  {| Header := header; Predicate := Map {[ "Data" := Str "foo" ]} |}.

(** The registry holds two attestations for every image but the one
    called bad, whose fetch fails: one envelope of the custom type and
    one of another type.  A signature is named by its payload. *)
#[local] Instance externals : Externals := {|
  EnableExperimental _ := false;
  PredicateTypeMap :=
    {[ "custom" := custom_uri; "slsaprovenance" := slsa_uri ]};
  ClientOpts _ w := (Ok tt, w);
  GetRoots w := (tt, w);
  PublicKeyFromKeyRef _ w := (Ok accept_all, w);
  GetKeyWithSlot _ w := (Ok 7, w);
  Close _ w := w;
  Key_Verifier _ w := (Err token_error, w);
  WrapVerifier _ := accept_all;
  ParseReference imageRef := Ok imageRef;
  VerifyAttestations ref _ w :=
    if String.eqb ref "bad" then (Err fetch_error, w)
    else (Ok (["envelope-custom"; "envelope-other"], true), w);
  Payload vp w := (Ok vp, w);
  Unmarshal_map payload :=
    if String.eqb payload "envelope-custom"
    then Ok {[ "payloadType" := Str custom_uri; "payload" := Str "c3RhdGVtZW50" ]}
    else if String.eqb payload "envelope-other"
    then Ok {[ "payloadType" := Str "text/plain"; "payload" := Str "aGVsbG8=" ]}
    else Err (Foreign "encoding/json" "unexpected end of JSON input");
  Unmarshal_Statement _ := Ok statement;
  Unmarshal_LinkStatement _ := Ok {| Header := header; Predicate := tt |};
  Unmarshal_ProvenanceStatement _ := Ok {| Header := header; Predicate := tt |};
  Unmarshal_SPDXStatement _ := Ok statement;
  Marshal_any _ := Ok "predicate";
  Marshal_Link _ := Ok "link";
  Marshal_ProvenancePredicate _ := Ok "provenance";
  DecodeString s := Ok ("decoded " +:+ s);
  cue_ValidateJSON _ _ w := (None, w);
  PrintVerificationHeader _ _ _ w := w;
  PrintVerification _ _ _ w := w
|}.

Definition command (keyRef : string) (sk : bool) : VerifyAttestationCommand unit :=
  {| RegistryOptions_ := tt;
     CheckClaims := true;
     KeyRef := keyRef;
     Sk := sk;
     Slot := "9c";
     Output := "text";
     FulcioURL := EmptyString;
     RekorURL := EmptyString;
     PredicateType := "custom";
     Policies := ["policy.cue"] |}.

(** The state before the command runs. *)
Definition start : state (T:=types) := @mkState types tt [] [].

(** The check options of a run with a public key. *)
Definition opts : CheckOpts unit unit (Verifier unit unit) :=
  {| RegistryClientOpts := tt;
     ClaimVerifier_ := Some IntotoSubjectClaimVerifier;
     RekorURL_ := EmptyString;
     RootCerts := None;
     SigVerifier_ := Some (reverseDSSEVerifier accept_all) |}.

(** *** A world where things fail *)

Definition registry_error : error := Foreign "remote" "invalid registry options".
Definition key_error : error := Foreign "signature" "open missing.pub: no such file".
Definition slot_error : error := Foreign "pivkey" "no such slot".
Definition policy_error : error := Foreign "cue" "policy does not hold".
Definition parse_error : error := Foreign "name" "could not parse reference".
Definition statement_error : error := Foreign "encoding/json" "invalid character".
Definition marshal_error : error := Foreign "encoding/json" "unsupported value".

(** The collaborators above, except that
    - the client options are made only when [clientOpts] is set, the
      key reference missing.pub cannot be loaded and the slot 9a cannot
      be opened;
    - Not A Reference does not parse as a reference;
    - the image called broken has one attestation, an envelope of the
      custom type without a payload member;
    - two more envelopes of the custom type exist, one whose payload is
      no statement and one whose statement has the predicate null, which
      cannot be marshalled;
    - the policy deny.cue holds for nothing. *)
#[local] Instance faulty (clientOpts : bool) : Externals := {|
  EnableExperimental := @EnableExperimental types externals;
  PredicateTypeMap := @PredicateTypeMap types externals;
  ClientOpts _ w := (if clientOpts then Ok tt else Err registry_error, w);
  GetRoots := @GetRoots types externals;
  PublicKeyFromKeyRef keyRef w :=
    (if String.eqb keyRef "missing.pub" then Err key_error else Ok accept_all, w);
  GetKeyWithSlot slot w := (if String.eqb slot "9a" then Err slot_error else Ok 7, w);
  Close := @Close types externals;
  Key_Verifier := @Key_Verifier types externals;
  WrapVerifier := @WrapVerifier types externals;
  ParseReference imageRef :=
    if String.eqb imageRef "Not A Reference" then Err parse_error else Ok imageRef;
  VerifyAttestations ref co w :=
    if String.eqb ref "broken" then (Ok (["envelope-broken"], true), w)
    else @VerifyAttestations types externals ref co w;
  Payload := @Payload types externals;
  Unmarshal_map payload :=
    if String.eqb payload "envelope-broken"
    then Ok {[ "payloadType" := Str custom_uri ]}
    else if String.eqb payload "envelope-nostatement"
    then Ok {[ "payloadType" := Str custom_uri; "payload" := Str "bm90IGpzb24=" ]}
    else if String.eqb payload "envelope-null"
    then Ok {[ "payloadType" := Str custom_uri; "payload" := Str "bnVsbA==" ]}
    else @Unmarshal_map types externals payload;
  Unmarshal_Statement data :=
    if String.eqb data "decoded bm90IGpzb24=" then Err statement_error
    else if String.eqb data "decoded bnVsbA=="
    then Ok {| Header := header; Predicate := Nil |}
    else Ok statement;
  Unmarshal_LinkStatement := @Unmarshal_LinkStatement types externals;
  Unmarshal_ProvenanceStatement := @Unmarshal_ProvenanceStatement types externals;
  Unmarshal_SPDXStatement := @Unmarshal_SPDXStatement types externals;
  Marshal_any v := match v with Nil => Err marshal_error | _ => Ok "predicate" end;
  Marshal_Link := @Marshal_Link types externals;
  Marshal_ProvenancePredicate := @Marshal_ProvenancePredicate types externals;
  DecodeString := @DecodeString types externals;
  cue_ValidateJSON _ policies w :=
    (if decide (policies = ["deny.cue"]) then Some policy_error else None, w);
  PrintVerificationHeader := @PrintVerificationHeader types externals;
  PrintVerification := @PrintVerification types externals
|}.

(** A command with a key reference or the token flag, a slot, a
    requested predicate type and policies. *)
Definition command_with (keyRef : string) (sk : bool) (slot predicateType : string)
    (policies : list string) : VerifyAttestationCommand unit :=
  {| RegistryOptions_ := tt;
     CheckClaims := true;
     KeyRef := keyRef;
     Sk := sk;
     Slot := slot;
     Output := "json";
     FulcioURL := EmptyString;
     RekorURL := EmptyString;
     PredicateType := predicateType;
     Policies := policies |}.

End Demo.

(** * Properties *)

(** ** The decoder *)

Module JsonFacts.
Import Json.

#[local] Abbreviation len := String.length.

(** Splits a successful run of a scanner into the runs of its parts. *)
#[local] Ltac split_some H :=
  repeat match type of H with
  | None = Some _ => discriminate H
  | Some _ = Some _ => injection H as ?
  | mbind _ _ = Some _ => apply bind_Some in H as (? & ? & H)
  | (let '(_, _) := ?p in _) = Some _ => destruct p
  | match ?x with _ => _ end = Some _ => destruct x eqn:?
  end.

(** *** Strings *)

Lemma append_cons x (a b : string) : String x a +:+ b = String x (a +:+ b).
Proof. reflexivity. Qed.

Lemma append_nil_l (b : string) : EmptyString +:+ b = b.
Proof. reflexivity. Qed.

Lemma append_nil_r (a : string) : a +:+ EmptyString = a.
Proof. induction a as [|x a IH]; [done|]. rewrite append_cons. by f_equal. Qed.

Lemma length_append (a b : string) : len (a +:+ b) = len a + len b.
Proof. induction a as [|x a IH]; [done|]. rewrite append_cons. simpl. by rewrite IH. Qed.

(** *** Every scanner consumes input *)

Lemma skip_space_length s : len (skip_space s) <= len s.
Proof. induction s as [|c s IH]; simpl; [lia|]. destruct (isSpace c); simpl; lia. Qed.

Lemma scan_digits_length s d r : scan_digits s = (d, r) -> len s = len d + len r.
Proof.
  revert d r. induction s as [|c s IH]; simpl; intros d r Hs.
  - by simplify_eq.
  - destruct (is_digit c); [|by simplify_eq].
    destruct (scan_digits s) as [d' r'] eqn:E. simplify_eq. simpl.
    by rewrite (IH d' r).
Qed.

Lemma nonempty_digits_length s d r : nonempty_digits s = Some (d, r) -> len r < len s.
Proof.
  unfold nonempty_digits. destruct (scan_digits s) as [d' r'] eqn:E.
  apply scan_digits_length in E. destruct d'; intros; simplify_eq. simpl in E. lia.
Qed.

Lemma scan_string_length s t r : scan_string s = Some (t, r) -> len r < len s.
Proof.
  assert (forall k s t r, len s <= k -> scan_string s = Some (t, r) -> len r < len s) as G;
    [|by eapply G].
  clear. induction k as [|k IH]; intros s t r Hk H;
    destruct s as [|c s]; simpl in Hk; try done; [lia|].
  simpl in H. split_some H; subst; cbn [String.length] in *; try lia;
    match goal with
    | Hs : scan_string ?s' = Some (_, _) |- _ =>
        apply IH in Hs; cbn [String.length] in *; lia
    end.
Qed.

Lemma scan_sign_length s sg r : scan_sign s = (sg, r) -> len r <= len s.
Proof.
  unfold scan_sign. destruct s as [|c s]; [by intros; simplify_eq|].
  destruct (Ascii.eqb c "-"); intros; simplify_eq; cbn [String.length]; lia.
Qed.

Lemma scan_int_length s i r : scan_int s = Some (i, r) -> len r < len s.
Proof.
  unfold scan_int. destruct s as [|c s]; [done|].
  destruct (Ascii.eqb c "0"); [intros; simplify_eq; cbn [String.length]; lia|].
  destruct (is_digit c) eqn:Hc; [|done]. intros H; simplify_eq.
  simpl in H. rewrite Hc in H. destruct (scan_digits s) as [d r'] eqn:E.
  apply scan_digits_length in E. simplify_eq. cbn [String.length]. lia.
Qed.

Lemma scan_frac_length s f r : scan_frac s = Some (f, r) -> len r <= len s.
Proof.
  unfold scan_frac. destruct s as [|c s]; [by intros; simplify_eq|].
  destruct (Ascii.eqb c "."); [|by intros; simplify_eq].
  intros H. apply bind_Some in H as ([d r'] & Hd & H). simplify_eq.
  apply nonempty_digits_length in Hd. cbn [String.length]. lia.
Qed.

Lemma scan_exp_length s e r : scan_exp s = Some (e, r) -> len r <= len s.
Proof.
  unfold scan_exp. destruct s as [|c s]; [by intros; simplify_eq|].
  destruct (Ascii.eqb c "e" || Ascii.eqb c "E"); [|by intros; simplify_eq].
  destruct s as [|c' s'].
  - intros H. apply bind_Some in H as ([d r'] & Hd & H). by vm_compute in Hd.
  - destruct (Ascii.eqb c' "+" || Ascii.eqb c' "-");
      intros H; apply bind_Some in H as ([d r'] & Hd & H); simplify_eq;
      apply nonempty_digits_length in Hd; cbn [String.length] in *; lia.
Qed.

Lemma scan_number_length s lit r : scan_number s = Some (lit, r) -> len r < len s.
Proof.
  unfold scan_number. destruct (scan_sign s) as [sg r0] eqn:Hsg. intros H.
  apply bind_Some in H as ([i r1] & Hi & H).
  apply bind_Some in H as ([f r2] & Hf & H).
  apply bind_Some in H as ([e r3] & He & H). simplify_eq.
  apply scan_sign_length in Hsg. apply scan_int_length in Hi.
  apply scan_frac_length in Hf. apply scan_exp_length in He. lia.
Qed.

Lemma strip_prefix_length p s r : strip_prefix p s = Some r -> len s = len p + len r.
Proof.
  revert s. induction p as [|a p IH]; intros [|b s] Hs; simpl in *; simplify_eq; try done.
  destruct (Ascii.eqb a b); [|done]. by rewrite (IH s).
Qed.

(** *** The bound on nested calls is enough for every input *)

Section Total.
Context {float64 : Type} (PF : string -> option float64) (un : bool).

Lemma shrinks_err s e : shrinks (float64:=float64) s (Some (Err e)).
Proof. eexists; split; [done|]. by intros. Qed.

Lemma shrinks_ok s (v : value float64) r : len r < len s -> shrinks s (Some (Ok (v, r))).
Proof. intros. eexists; split; [done|]. by intros; simplify_eq. Qed.

Lemma shrinks_mono s s' (res : option (result (value float64 * string))) :
  shrinks s' res -> len s' <= len s -> shrinks s res.
Proof.
  intros (x & -> & Hx) Hle. exists x; split; [done|].
  intros v r Hr. specialize (Hx v r Hr). lia.
Qed.

Lemma literal_shrinks name (v : value float64) s :
  0 < len name -> shrinks s (Some (literal name v s)).
Proof.
  intros Hn. unfold literal. destruct (strip_prefix name s) eqn:E.
  - apply strip_prefix_length in E. apply shrinks_ok. lia.
  - apply shrinks_err.
Qed.

Lemma decode_total n :
  (forall depth s, 2 * len s + 1 <= n -> shrinks s (decode_value PF un n depth s)) /\
  (forall depth s acc, 2 * len s + 2 <= n ->
     shrinks s (decode_elems PF un n depth s acc)) /\
  (forall depth s m, 2 * len s + 2 <= n ->
     shrinks s (decode_members PF un n depth s m)).
Proof.
  induction n as [|n (IHv & IHe & IHm)]; [repeat split; intros; lia|].
  repeat split.
  - intros depth s Hn. simpl.
    pose proof (skip_space_length s) as Hsk.
    destruct (skip_space s) as [|c r] eqn:Es; [apply shrinks_err|].
    cbn [String.length] in Hsk.
    destruct (code c =? 123)%N.
    { destruct (depth <? maxNestingDepth)%N; [|apply shrinks_err].
      pose proof (skip_space_length r) as Hsk2.
      destruct (skip_space r) as [|c' r'] eqn:Er; [apply shrinks_err|].
      cbn [String.length] in Hsk2.
      destruct (code c' =? 125)%N; [apply shrinks_ok; lia|].
      eapply shrinks_mono; [apply IHm|]; lia. }
    destruct (code c =? 91)%N.
    { destruct (depth <? maxNestingDepth)%N; [|apply shrinks_err].
      pose proof (skip_space_length r) as Hsk2.
      destruct (skip_space r) as [|c' r'] eqn:Er; [apply shrinks_err|].
      cbn [String.length] in Hsk2.
      destruct (code c' =? 93)%N; [apply shrinks_ok; lia|].
      eapply shrinks_mono; [apply IHe|]; lia. }
    destruct (is_quote c).
    { destruct (scan_string r) as [[t r']|] eqn:E; [|apply shrinks_err].
      apply scan_string_length in E. apply shrinks_ok. lia. }
    destruct (code c =? 116)%N.
    { eapply shrinks_mono; [apply literal_shrinks|]; cbn [String.length]; lia. }
    destruct (code c =? 102)%N.
    { eapply shrinks_mono; [apply literal_shrinks|]; cbn [String.length]; lia. }
    destruct (code c =? 110)%N.
    { eapply shrinks_mono; [apply literal_shrinks|]; cbn [String.length]; lia. }
    destruct ((code c =? 45)%N || is_digit c); [|apply shrinks_err].
    destruct (scan_number (String c r)) as [[lit r']|] eqn:E; [|apply shrinks_err].
    apply scan_number_length in E. cbn [String.length] in E.
    destruct (convertNumber PF un lit); [apply shrinks_ok; lia|apply shrinks_err].
  - intros depth s acc Hn. simpl.
    destruct (IHv depth s) as (x & -> & Hx); [lia|].
    destruct x as [[v r]|e]; [|apply shrinks_err].
    specialize (Hx v r eq_refl).
    pose proof (skip_space_length r) as Hsk.
    destruct (skip_space r) as [|c r'] eqn:Er; [apply shrinks_err|].
    cbn [String.length] in Hsk.
    destruct (code c =? 44)%N; [eapply shrinks_mono; [apply IHe|]; lia|].
    destruct (code c =? 93)%N; [apply shrinks_ok; lia|apply shrinks_err].
  - intros depth s m Hn. simpl.
    pose proof (skip_space_length s) as Hsk.
    destruct (skip_space s) as [|q r] eqn:Es; [apply shrinks_err|].
    cbn [String.length] in Hsk.
    destruct (is_quote q); [|apply shrinks_err].
    destruct (scan_string r) as [[k r1]|] eqn:E; [|apply shrinks_err].
    apply scan_string_length in E.
    pose proof (skip_space_length r1) as Hsk1.
    destruct (skip_space r1) as [|c r2] eqn:Er1; [apply shrinks_err|].
    cbn [String.length] in Hsk1.
    destruct (code c =? 58)%N; [|apply shrinks_err].
    destruct (IHv depth r2) as (x & -> & Hx); [lia|].
    destruct x as [[v r3]|e]; [|apply shrinks_err].
    specialize (Hx v r3 eq_refl).
    pose proof (skip_space_length r3) as Hsk3.
    destruct (skip_space r3) as [|c' r4] eqn:Er3; [apply shrinks_err|].
    cbn [String.length] in Hsk3.
    destruct (code c' =? 44)%N; [eapply shrinks_mono; [apply IHm|]; lia|].
    destruct (code c' =? 125)%N; [apply shrinks_ok; lia|apply shrinks_err].
Qed.

(** [Decode] never takes its last branch. *)
Lemma decode_value_enough s : decode_value PF un (calls s) 0 s <> None.
Proof.
  destruct (proj1 (decode_total (calls s)) 0%N s) as (x & Hx & _); [unfold calls; lia|].
  by rewrite Hx.
Qed.

(** *** With [UseNumber] no float64 is made *)




End Total.

(** *** Integers and plain strings are scanned back as they are written *)

Lemma scan_digits_stop rest : number_stop rest = true -> scan_digits rest = (EmptyString, rest).
Proof.
  destruct rest as [|c r]; [done|]. simpl. intros H.
  destruct (is_digit c); [done|done].
Qed.

Lemma scan_digits_uint d rest :
  number_stop rest = true ->
  scan_digits (NilEmpty.string_of_uint d +:+ rest) = (NilEmpty.string_of_uint d, rest).
Proof.
  intros Hr. induction d as [|d IH|d IH|d IH|d IH|d IH|d IH|d IH|d IH|d IH|d IH];
    [by apply scan_digits_stop|..];
    cbn [NilEmpty.string_of_uint]; rewrite append_cons; cbn [scan_digits];
    (replace (is_digit _) with true by reflexivity); by rewrite IH.
Qed.

Lemma to_uint_unorm p : Decimal.unorm (Pos.to_uint p) = Pos.to_uint p.
Proof.
  rewrite <- (DecimalPos.Unsigned.to_of (Pos.to_uint p)).
  by rewrite DecimalPos.Unsigned.of_to.
Qed.

Lemma to_uint_head p : forall u, Pos.to_uint p <> Decimal.D0 u.
Proof.
  intros u Hu. pose proof (to_uint_unorm p) as Hn. rewrite Hu in Hn.
  rewrite unorm_D0 in Hn.
  destruct u as [|u|u|u|u|u|u|u|u|u|u];
    [by apply (DecimalPos.Unsigned.to_uint_nonzero p)|..];
    match type of Hn with
    | Decimal.unorm ?v = _ =>
        assert (v <> Decimal.Nil) as Hnil by done;
        pose proof (nb_digits_unorm v Hnil) as Hle; rewrite Hn in Hle; simpl in Hle; lia
    end.
Qed.

Lemma number_stop_frac rest : number_stop rest = true -> scan_frac rest = Some (EmptyString, rest).
Proof.
  destruct rest as [|c r]; [done|]. unfold scan_frac. simpl. intros H.
  destruct (Ascii.eqb c "."); [|done]. by rewrite !orb_true_r in H.
Qed.

Lemma number_stop_exp rest : number_stop rest = true -> scan_exp rest = Some (EmptyString, rest).
Proof.
  destruct rest as [|c r]; [done|]. unfold scan_exp. simpl. intros H.
  destruct (Ascii.eqb c "e"), (Ascii.eqb c "E"); simpl; try done;
    by rewrite ?orb_true_r in H.
Qed.

Lemma scan_int_uint p rest :
  number_stop rest = true ->
  scan_int (NilEmpty.string_of_uint (Pos.to_uint p) +:+ rest)
  = Some (NilEmpty.string_of_uint (Pos.to_uint p), rest).
Proof.
  intros Hr. pose proof (to_uint_head p) as Hh.
  pose proof (DecimalPos.Unsigned.to_uint_nonnil p) as Hnil.
  pose proof (scan_digits_uint (Pos.to_uint p) rest Hr) as Hd.
  destruct (Pos.to_uint p) as [|d|d|d|d|d|d|d|d|d|d]; [done|by destruct (Hh d)|..];
    cbn [NilEmpty.string_of_uint] in *; rewrite append_cons in *; unfold scan_int;
    (replace (Ascii.eqb _ "0") with false by reflexivity);
    (replace (is_digit _) with true by reflexivity); by rewrite Hd.
Qed.

Lemma string_of_uint_pos p :
  NilZero.string_of_uint (Pos.to_uint p) = NilEmpty.string_of_uint (Pos.to_uint p).
Proof.
  pose proof (DecimalPos.Unsigned.to_uint_nonnil p). by destruct (Pos.to_uint p).
Qed.

Lemma uint_head_digit p :
  exists c r, NilEmpty.string_of_uint (Pos.to_uint p) = String c r /\ is_digit c = true.
Proof.
  pose proof (DecimalPos.Unsigned.to_uint_nonnil p).
  destruct (Pos.to_uint p); [done|..]; simpl; eauto.
Qed.

Lemma scan_number_parts s sg r0 i r1 :
  scan_sign s = (sg, r0) -> scan_int r0 = Some (i, r1) -> number_stop r1 = true ->
  scan_number s = Some (sg +:+ i, r1).
Proof.
  intros Hs Hi Hr. unfold scan_number. rewrite Hs, Hi.
  change (Some (i, r1) ≫= ?f) with (f (i, r1)). cbv beta iota.
  rewrite (number_stop_frac _ Hr).
  change (Some (EmptyString, r1) ≫= ?f) with (f (EmptyString, r1)). cbv beta iota.
  rewrite (number_stop_exp _ Hr).
  change (Some (EmptyString, r1) ≫= ?f) with (f (EmptyString, r1)). cbv beta iota.
  by rewrite !append_nil_r.
Qed.

Lemma scan_number_decimal z rest :
  number_stop rest = true -> scan_number (decimal z +:+ rest) = Some (decimal z, rest).
Proof.
  intros Hr. unfold decimal. destruct z as [|p|p]; cbn [Z.to_int NilZero.string_of_int].
  - by apply (scan_number_parts _ EmptyString (String "0" rest) "0" rest).
  - rewrite string_of_uint_pos.
    eapply (scan_number_parts _ EmptyString); [|by apply scan_int_uint|done].
    destruct (uint_head_digit p) as (c & r & Hc & Hd).
    rewrite Hc, append_cons. cbn [scan_sign].
    destruct (Ascii.eqb_spec c "-") as [->|]; [done|done].
  - rewrite string_of_uint_pos, append_cons.
    by eapply (scan_number_parts _ "-"); [|apply scan_int_uint|].
Qed.


Lemma scan_string_plain s rest :
  plain s = true -> scan_string (s +:+ String quote rest) = Some (s, rest).
Proof.
  induction s as [|c s IH]; [done|]. cbn [plain]. intros [Hc Hs]%andb_true_iff.
  unfold plain_char in Hc.
  apply andb_true_iff in Hc as [[[H32 H128]%andb_true_iff Hq]%andb_true_iff Hb].
  apply negb_true_iff in Hq, Hb. rewrite append_cons. cbn [scan_string]. rewrite Hq, Hb.
  replace (code c <? 32)%N with false by (symmetry; apply N.ltb_ge; by apply N.leb_le).
  by rewrite H128, (IH Hs).
Qed.


Lemma doc_induction (P : doc -> Prop) :
  P DNull -> (forall b, P (DBool b)) -> (forall z, P (DInt z)) -> (forall s, P (DStr s)) ->
  (forall l, Forall P l -> P (DArr l)) ->
  (forall l, Forall (fun kv => P kv.2) l -> P (DObj l)) ->
  forall d, P d.
Proof.
  intros Hnull Hbool Hnum Hstr Harr Hobj.
  fix go 1. intros [| b | z | s | l | l].
  - exact Hnull.
  - apply Hbool.
  - apply Hnum.
  - apply Hstr.
  - apply Harr. induction l as [|x l IH]; constructor; [apply go|exact IH].
  - apply Hobj. induction l as [|[k x] l IH]; constructor; [apply go|exact IH].
Qed.


(** *** The text of a document decodes to its value *)

Section Roundtrip.
Context {float64 : Type} (PF : string -> option float64).

Lemma skip_space_head c r : isSpace c = false -> skip_space (String c r) = String c r.
Proof. intros H. cbn [skip_space]. by rewrite H. Qed.

Lemma digit_code c : is_digit c = true -> (48 <= code c <= 57)%N.
Proof. unfold is_digit. intros [H1 H2]%andb_true_iff. split; by apply N.leb_le. Qed.

Lemma decode_value_number n depth c s lit r :
  code c = 45%N \/ is_digit c = true ->
  scan_number (String c s) = Some (lit, r) ->
  decode_value PF true (S n) depth (String c s) = Some (Ok (Number lit, r)).
Proof.
  intros Hc Hs.
  assert (code c = 45 \/ 48 <= code c <= 57)%N as Hc'
      by (destruct Hc as [|?%digit_code]; [by left|by right]).
  assert (isSpace c = false) as Hsp.
  { unfold isSpace. repeat (apply orb_false_iff; split); apply N.eqb_neq; lia. }
  cbn [decode_value]. rewrite (skip_space_head _ _ Hsp).
  repeat (match goal with
          | |- context [(code c =? ?k)%N] =>
              replace (code c =? k)%N with false by (symmetry; apply N.eqb_neq; lia)
          end).
  replace (is_quote c) with false by (symmetry; apply N.eqb_neq; lia).
  replace ((code c =? 45)%N || is_digit c) with true.
  2:{ symmetry. apply orb_true_iff. destruct Hc as [->|?]; [by left|by right]. }
  by rewrite Hs.
Qed.

Lemma decode_value_string n depth s t r :
  scan_string s = Some (t, r) ->
  decode_value PF true (S n) depth (String quote s) = Some (Ok (Str t, r)).
Proof. intros Hs. cbn [decode_value]. rewrite skip_space_head by done. simpl. by rewrite Hs. Qed.

Lemma decode_value_array n depth s c r :
  (depth <? maxNestingDepth)%N = true ->
  skip_space s = String c r -> code c <> 93%N ->
  decode_value PF true (S n) depth (String "[" s) = decode_elems PF true n (depth + 1) s [].
Proof.
  intros Hd Hs Hc. cbn [decode_value]. rewrite skip_space_head by done.
  replace (code "[" =? 123)%N with false by done.
  replace (code "[" =? 91)%N with true by done.
  rewrite Hd, Hs. by replace (code c =? 93)%N with false by (symmetry; by apply N.eqb_neq).
Qed.

Lemma decode_value_object n depth s c r :
  (depth <? maxNestingDepth)%N = true ->
  skip_space s = String c r -> code c <> 125%N ->
  decode_value PF true (S n) depth (String "{" s) = decode_members PF true n (depth + 1) s ∅.
Proof.
  intros Hd Hs Hc. cbn [decode_value]. rewrite skip_space_head by done.
  replace (code "{" =? 123)%N with true by done.
  rewrite Hd, Hs. by replace (code c =? 125)%N with false by (symmetry; by apply N.eqb_neq).
Qed.

Lemma decode_elems_more n depth s acc v r :
  decode_value PF true n depth s = Some (Ok (v, String "," r)) ->
  decode_elems PF true (S n) depth s acc = decode_elems PF true n depth r (acc ++ [v]).
Proof. intros Hv. simpl. rewrite Hv. by rewrite skip_space_head by done. Qed.

Lemma decode_elems_last n depth s acc v r :
  decode_value PF true n depth s = Some (Ok (v, String "]" r)) ->
  decode_elems PF true (S n) depth s acc = Some (Ok (Slice (acc ++ [v]), r)).
Proof. intros Hv. simpl. rewrite Hv. by rewrite skip_space_head by done. Qed.

Lemma decode_members_more n depth k s m v r :
  plain k = true ->
  decode_value PF true n depth s = Some (Ok (v, String "," r)) ->
  decode_members PF true (S n) depth (String quote (k +:+ String quote (String ":" s))) m
  = decode_members PF true n depth r (<[k:=v]> m).
Proof.
  intros Hk Hv. simpl. change (ascii_of_pos 34) with quote.
  rewrite (scan_string_plain _ _ Hk).
  rewrite skip_space_head by done. replace (code ":" =? 58)%N with true by done.
  rewrite Hv. by rewrite skip_space_head by done.
Qed.

Lemma decode_members_last n depth k s m v r :
  plain k = true ->
  decode_value PF true n depth s = Some (Ok (v, String "}" r)) ->
  decode_members PF true (S n) depth (String quote (k +:+ String quote (String ":" s))) m
  = Some (Ok (Map (<[k:=v]> m), r)).
Proof.
  intros Hk Hv. simpl. change (ascii_of_pos 34) with quote.
  rewrite (scan_string_plain _ _ Hk).
  rewrite skip_space_head by done. replace (code ":" =? 58)%N with true by done.
  rewrite Hv. by rewrite skip_space_head by done.
Qed.

Lemma decimal_head z :
  exists c r, decimal z = String c r /\ (code c = 45%N \/ is_digit c = true).
Proof.
  unfold decimal. destruct z as [|p|p]; cbn [Z.to_int NilZero.string_of_int].
  - exists "0"%char, EmptyString. split; [done|by right].
  - rewrite string_of_uint_pos. destruct (uint_head_digit p) as (c & r & -> & Hc).
    exists c, r. split; [done|by right].
  - eexists _, _. split; [done|by left].
Qed.

Lemma render_head d rest :
  exists c r, render_to d rest = String c r /\
              isSpace c = false /\ code c <> 93%N /\ code c <> 125%N.
Proof.
  destruct d as [| [|] | z | s | [|x xs] | [|kv xs]]; cbn [render_to];
    try (eexists _, _; split; [reflexivity|done]).
  destruct (decimal_head z) as (c & r & -> & Hc). exists c, (r +:+ rest).
  split; [done|].
  assert (code c = 45 \/ 48 <= code c <= 57)%N as Hc'
      by (destruct Hc as [|?%digit_code]; [by left|by right]).
  repeat split; [|lia|lia].
  unfold isSpace. repeat (apply orb_false_iff; split); apply N.eqb_neq; lia.
Qed.

Lemma decode_elems_render xs :
  Forall (decodes PF) xs ->
  forall x n depth rest acc,
    decodes PF x -> well_formed x = true -> forallb well_formed xs = true ->
    foldr (fun x w => 1 + weight x + w) 0 (x :: xs) <= n ->
    (depth + foldr (fun x h => N.max (height x) h) 0%N (x :: xs) <= maxNestingDepth)%N ->
    decode_elems PF true n depth (render_to x (tail_to render_to xs rest)) acc
    = Some (Ok (Slice (acc ++ map value_of_doc (x :: xs)), rest)).
Proof.
  induction 1 as [|y ys Hy Hys IH]; intros x n depth rest acc Hx Wx Wxs Hn Hd;
    cbn [foldr] in Hn, Hd; (destruct n as [|n]; [lia|]); cbn [tail_to].
  - rewrite (decode_elems_last _ _ _ _ (value_of_doc x) rest); [done|].
    apply Hx; [done|lia|lia|done].
  - cbn [forallb] in Wxs. apply andb_true_iff in Wxs as [Wy Wys].
    rewrite (decode_elems_more _ _ _ _ (value_of_doc x)
               (render_to y (tail_to render_to ys rest))).
    + rewrite (IH y n depth rest (acc ++ [value_of_doc x])%list Hy Wy Wys); [|cbn [foldr]; lia|cbn [foldr]; lia].
      by rewrite <- app_assoc.
    + apply Hx; [done|lia|lia|done].
Qed.

Lemma decode_members_render xs :
  Forall (fun kv => decodes PF kv.2) xs ->
  forall kv n depth rest m,
    decodes PF kv.2 -> plain kv.1 && well_formed kv.2 = true ->
    forallb (fun kv => plain kv.1 && well_formed kv.2) xs = true ->
    foldr (fun kv w => 1 + weight kv.2 + w) 0 (kv :: xs) <= n ->
    (depth + foldr (fun kv h => N.max (height kv.2) h) 0%N (kv :: xs) <= maxNestingDepth)%N ->
    decode_members PF true n depth
      (member_to render_to kv (members_to render_to xs rest)) m
    = Some (Ok (Map (foldl (fun m kv => <[kv.1 := value_of_doc kv.2]> m) m (kv :: xs)), rest)).
Proof.
  induction 1 as [|y ys Hy Hys IH]; intros [k x] n depth rest m Hx Wx Wxs Hn Hd;
    cbn [foldr fst snd] in *; apply andb_true_iff in Wx as [Wk Wx];
    (destruct n as [|n]; [lia|]); unfold member_to; cbn [fst snd members_to].
  - rewrite (decode_members_last _ _ _ _ _ (value_of_doc x) rest Wk); [done|].
    apply Hx; [done|lia|lia|done].
  - cbn [forallb] in Wxs. apply andb_true_iff in Wxs as [Wy Wys].
    rewrite (decode_members_more _ _ _ _ _ (value_of_doc x)
               (member_to render_to y (members_to render_to ys rest)) Wk).
    + by rewrite (IH y n depth rest _ Hy Wy Wys); [|cbn [foldr]; lia|cbn [foldr]; lia].
    + apply Hx; [done|lia|lia|done].
Qed.

Lemma decode_render d : decodes PF d.
Proof.
  induction d as [| b | z | s | l IH | l IH] using doc_induction;
    intros Wd n depth rest Hn Hd Hr; cbn [weight] in Hn; (destruct n as [|n]; [lia|]);
    cbn [render_to value_of_doc].
  - done.
  - by destruct b.
  - destruct (decimal_head z) as (c & r & Hz & Hc).
    pose proof (scan_number_decimal z rest Hr) as Hs. rewrite Hz, append_cons in *.
    by apply decode_value_number.
  - apply decode_value_string. by apply scan_string_plain.
  - destruct l as [|x xs].
    { cbn [height foldr] in Hd. simpl.
      by replace (depth <? maxNestingDepth)%N with true by (symmetry; apply N.ltb_lt; lia). }
    cbn [height weight foldr] in Hd, Hn. cbn [well_formed forallb] in Wd.
    apply andb_true_iff in Wd as [Wx Wxs]. apply Forall_cons in IH as [Hx Hxs].
    destruct (render_head x (tail_to render_to xs rest)) as (c & r & Hc & Hsp & H93 & _).
    rewrite (decode_value_array _ _ _ c r);
      [| apply N.ltb_lt; lia | by rewrite Hc, skip_space_head | done].
    by rewrite (decode_elems_render xs Hxs x n (depth + 1) rest [] Hx Wx Wxs); [|cbn [foldr]; lia|cbn [foldr]; lia].
  - destruct l as [|kv xs].
    { cbn [height foldr] in Hd. simpl.
      by replace (depth <? maxNestingDepth)%N with true by (symmetry; apply N.ltb_lt; lia). }
    cbn [height weight foldr] in Hd, Hn. cbn [well_formed forallb] in Wd.
    apply andb_true_iff in Wd as [Wx Wxs]. apply Forall_cons in IH as [Hx Hxs].
    rewrite (decode_value_object _ _ _ quote
               (kv.1 +:+ String quote (String ":" (render_to kv.2 (members_to render_to xs rest)))));
      [| apply N.ltb_lt; lia | by unfold member_to; rewrite skip_space_head | done].
    by rewrite (decode_members_render xs Hxs kv n (depth + 1) rest ∅ Hx Wx Wxs); [|cbn [foldr]; lia|cbn [foldr]; lia].
Qed.

(** *** The bound on nested calls covers every document *)

Lemma render_tail_weight xs :
  Forall (fun d => forall rest, weight d + 2 * len rest + 1 <= 2 * len (render_to d rest)) xs ->
  forall rest,
    foldr (fun x w => 1 + weight x + w) 0 xs + 2 * len rest + 2
    <= 2 * len (tail_to render_to xs rest).
Proof.
  induction 1 as [|y ys Hy _ IH]; intros rest; cbn [foldr tail_to String.length]; [lia|].
  specialize (Hy (tail_to render_to ys rest)). specialize (IH rest). lia.
Qed.

Lemma render_members_weight xs :
  Forall (fun kv : string * doc =>
            forall rest, weight kv.2 + 2 * len rest + 1 <= 2 * len (render_to kv.2 rest)) xs ->
  forall rest,
    foldr (fun kv w => 1 + weight kv.2 + w) 0 xs + 2 * len rest + 2
    <= 2 * len (members_to render_to xs rest).
Proof.
  induction 1 as [|y ys Hy _ IH]; intros rest;
    cbn [foldr members_to String.length]; [lia|].
  specialize (Hy (members_to render_to ys rest)). specialize (IH rest).
  unfold member_to. cbn [String.length]. rewrite length_append. cbn [String.length]. lia.
Qed.

Lemma render_weight d rest : weight d + 2 * len rest + 1 <= 2 * len (render_to d rest).
Proof.
  revert rest. induction d as [| b | z | s | l IH | l IH] using doc_induction;
    intros rest; cbn [weight render_to].
  - rewrite length_append. simpl. lia.
  - rewrite length_append. destruct b; simpl; lia.
  - rewrite length_append. destruct (decimal_head z) as (c & r & -> & _). simpl. lia.
  - cbn [String.length]. rewrite length_append. cbn [String.length]. lia.
  - destruct l as [|x xs]; [simpl; lia|]. apply Forall_cons in IH as [Hx Hxs].
    cbn [foldr String.length].
    specialize (Hx (tail_to render_to xs rest)).
    pose proof (render_tail_weight xs Hxs rest). lia.
  - destruct l as [|kv xs]; [simpl; lia|]. apply Forall_cons in IH as [Hx Hxs].
    cbn [foldr String.length]. unfold member_to. cbn [String.length].
    rewrite length_append. cbn [String.length].
    specialize (Hx (members_to render_to xs rest)).
    pose proof (render_members_weight xs Hxs rest). lia.
Qed.


End Roundtrip.

End JsonFacts.

(** ** The envelope-aware verifier *)

Module SignatureFacts.

Section Reverse.
Context {VerifyOption VState : Type}.

(** C1.  Whatever the wrapped verifier, the message stream, the
    options and the verifier's state, two calls of the envelope-aware
    [VerifySignature] that differ in the signature stream only end
    alike: the same error, the same message stream left, the same
    verifier state.  The error is the one the wrapped verifier gives
    for the message stream in its signature slot and nil in its
    message slot, and each signature stream is left as it came. *)
Theorem reverseDSSEVerifier_ignores_signature_stream
    (w : Verifier VerifyOption VState) (s1 s2 m : Reader)
    (opts : list VerifyOption) (st : VState) :
  let v1 := VerifySignature (reverseDSSEVerifier w) s1 m opts st in
  let v2 := VerifySignature (reverseDSSEVerifier w) s2 m opts st in
  verdict_err v1 = verdict_err v2 /\
  msg_left v1 = msg_left v2 /\
  state_left v1 = state_left v2 /\
  sig_left v1 = s1 /\ sig_left v2 = s2 /\
  verdict_err v1 = verdict_err (VerifySignature w m None opts st).
Proof. cbn. repeat split. Qed.

End Reverse.

End SignatureFacts.

(** ** The query-based evaluator *)

Module RegoFacts.
Import Json Rego JsonFacts.

Section Evaluator.
Context {float64 : Type} {E : Engine float64}.

Abbreviation decoded jsonBody := (Decode ParseFloat (UseNumber (NewDecoder jsonBody))).1.
Abbreviation rego entrypoints := (New "data.signature.allow" entrypoints).

Lemma ValidateJSON_unfold jsonBody entrypoints :
  (ValidateJSON jsonBody entrypoints).1 =
  match PrepareForEval (rego entrypoints) with
  | Err err => Some err
  | Ok query =>
      match decoded jsonBody with
      | Err err => Some err
      | Ok input =>
          match Eval query input with
          | Err err => Some err
          | Ok rs => if Allowed rs then None else Some denial
          end
      end
  end.
Proof. unfold ValidateJSON. by repeat case_match. Qed.

Lemma Allowed_true (rs : ResultSet float64) :
  Allowed rs = true <->
  exists text,
    rs = [ {| Expressions := [ {| Value := Bool true; Text := text |} ];
              Bindings := ∅ |} ].
Proof.
  split.
  - unfold Allowed. destruct rs as [|[es bs] [|? ?]]; try done. cbn.
    destruct (size bs =? 0)%nat eqn:Hs; [|done].
    apply Nat.eqb_eq, map_size_empty_iff in Hs as ->.
    destruct es as [|[v t] [|? ?]]; try done. cbn.
    destruct v as [| [|] | | | | |]; try done. by exists t.
  - by intros [text ->].
Qed.

(** C2.  [ValidateJSON] returns nil exactly when the sources were
    prepared, the body decoded, the query evaluated, and the result
    set is marked allowed; a result set that is not marked allowed,
    the empty one among them, gives the error rego validation failed.
    A result set is marked allowed exactly when it is one result
    without bindings whose one expression has the value true. *)
Theorem ValidateJSON_nil_iff_allowed (jsonBody : string) (entrypoints : list string) :
  ((ValidateJSON jsonBody entrypoints).1 = None <->
     exists rs, evaluates_to jsonBody entrypoints rs /\ Allowed rs = true) /\
  (forall rs, evaluates_to jsonBody entrypoints rs -> Allowed rs = false ->
     (ValidateJSON jsonBody entrypoints).1 = Some denial) /\
  (evaluates_to jsonBody entrypoints [] ->
     (ValidateJSON jsonBody entrypoints).1 = Some denial) /\
  (forall rs : ResultSet float64,
     Allowed rs = true <->
     exists text,
       rs = [ {| Expressions := [ {| Value := Bool true; Text := text |} ];
                 Bindings := ∅ |} ]).
Proof.
  rewrite ValidateJSON_unfold. unfold evaluates_to.
  assert (forall rs, (exists query input,
              PrepareForEval (rego entrypoints) = Ok query /\
              decoded jsonBody = Ok input /\ Eval query input = Ok rs) ->
          Allowed rs = false ->
          match PrepareForEval (rego entrypoints) with
          | Err err => Some err
          | Ok query =>
              match decoded jsonBody with
              | Err err => Some err
              | Ok input =>
                  match Eval query input with
                  | Err err => Some err
                  | Ok rs => if Allowed rs then None else Some denial
                  end
              end
          end = Some denial) as Hden.
  { intros rs (query & input & -> & -> & ->) Hrs. by rewrite Hrs. }
  split; [|split; [|split]].
  - split.
    + destruct (PrepareForEval _) as [query|]; [|done].
      destruct (decoded jsonBody) as [input|]; [|done].
      destruct (Eval query input) as [rs|] eqn:He; [|done].
      destruct (Allowed rs) eqn:Hrs; [|done]. intros _. exists rs. eauto 10.
    + intros (rs & (query & input & -> & -> & ->) & ->). done.
  - exact Hden.
  - intros H. by apply (Hden []).
  - apply Allowed_true.
Qed.



End Evaluator.

(** The evaluator in the small world: the predicate with Data equal to
    bar evaluates to the empty result set, and the call fails with the
    fixed error. *)
Lemma ValidateJSON_nil_iff_allowed_witness :
  evaluates_to (E:=Demo.engine) (render (Demo.data_doc "bar")) ["policy.rego"] [] /\
  (ValidateJSON (E:=Demo.engine) (render (Demo.data_doc "bar")) ["policy.rego"]).1
  = Some denial.
Proof.
  assert (evaluates_to (E:=Demo.engine) (render (Demo.data_doc "bar")) ["policy.rego"] [])
    as Hev.
  { exists "data.signature.allow", (value_of_doc (Demo.data_doc "bar")).
    repeat split; vm_compute; reflexivity. }
  split; [exact Hev|].
  exact (proj1 (proj2 (proj2
           (ValidateJSON_nil_iff_allowed (E:=Demo.engine)
              (render (Demo.data_doc "bar")) ["policy.rego"]))) Hev).
Defined.




End RegoFacts.

(** ** The command *)

Module VerifyFacts.
Import Json Verify.

#[local] Open Scope list_scope.

Section Run.
Context {T : Types} {X : Externals}.

#[local] Abbreviation Command := (VerifyAttestationCommand RegistryOptions).
#[local] Abbreviation Opts := (CheckOpts RemoteOpts CertPool (Verifier VerifyOption World)).

Lemma string_neq_any_true (s : string) (v : value float64) :
  string_neq_any s v = true <-> v <> Str s.
Proof.
  destruct v as [| | | |t| |]; cbn; try (split; [done|done]).
  destruct (String.eqb_spec s t) as [->|Hne]; cbn; split; try done.
  intros _ [= ->]. done.
Qed.

(** C6.  A verified envelope whose payloadType is not the requested
    predicate type is skipped without error: its payload is fetched and
    parsed as an envelope, and nothing else is called for it, no base64
    decoding, no statement parsing, no policy evaluation; the loop goes
    on with the envelopes after it. *)
Theorem forVerified_skips_other_types (c : Command) (vp : OciSignature) (st : state)
    (payload : string) (w : World) (payloadData : gmap string (value float64)) :
  Payload vp (world st) = (Ok payload, w) ->
  Unmarshal_map payload = Ok payloadData ->
  index_any payloadData "payloadType" <> Str (requested c) ->
  forVerified c vp st
  = (Next tt, logged st w [CallPayload vp; CallUnmarshalEnvelope payload]) /\
  forall rest,
    range (vp :: rest) (forVerified c) st
    = range rest (forVerified c)
        (logged st w [CallPayload vp; CallUnmarshalEnvelope payload]).
Proof.
  intros Hp Hu Hne. apply string_neq_any_true in Hne.
  assert (forVerified c vp st
          = (Next tt, logged st w [CallPayload vp; CallUnmarshalEnvelope payload])) as Hstep.
  { unfold forVerified, bind, invoke, compute, check, ret, logged. rewrite Hp. cbn.
    rewrite Hu. cbn. unfold requested in Hne. rewrite Hne. by rewrite <- app_assoc. }
  split; [exact Hstep|]. intros rest. cbn [range]. unfold bind at 1. by rewrite Hstep.
Qed.

(** *** The branches of the statement decoding *)

(** [validate] is one call of the evaluator. *)
Lemma validate_unfold (payload : string) (policies : list string) (st : state) :
  validate payload policies st
  = (match (cue_ValidateJSON payload policies (world st)).1 with
     | Some e => Return e
     | None => Next tt
     end,
     logged st (cue_ValidateJSON payload policies (world st)).2
       [CallValidateJSON payload policies]).
Proof.
  unfold validate, bind, invoke, logged.
  by destruct (cue_ValidateJSON payload policies (world st)) as [[e|] w].
Qed.

Lemma forVerified_passes (c : Command) (vp : OciSignature) (st : state)
    (payload : string) (w : World) (s decodedPayload : string) :
  passes c vp st payload w s decodedPayload ->
  forVerified c vp st =
  (let st1 := logged st w (opened vp payload s) in
   if String.eqb (PredicateType c) PredicateCustom then
     match Unmarshal_Statement decodedPayload with
     | Err e =>
         (Return e, logged st1 w [CallUnmarshalStatement IntoStatement decodedPayload])
     | Ok stmt =>
         validate (marshalled (Marshal_any (Predicate stmt))) (Policies c)
           (logged st1 w [CallUnmarshalStatement IntoStatement decodedPayload;
                          CallMarshal (CustomPredicate (Predicate stmt))])
     end
   else if String.eqb (PredicateType c) PredicateLink then
     match Unmarshal_LinkStatement decodedPayload with
     | Err e =>
         (Return e, logged st1 w [CallUnmarshalStatement IntoLinkStatement decodedPayload])
     | Ok stmt =>
         validate (marshalled (Marshal_Link (Predicate stmt))) (Policies c)
           (logged st1 w [CallUnmarshalStatement IntoLinkStatement decodedPayload;
                          CallMarshal (LinkPredicate (Predicate stmt))])
     end
   else if String.eqb (PredicateType c) PredicateSLSA then
     match Unmarshal_ProvenanceStatement decodedPayload with
     | Err e =>
         (Return e,
          logged st1 w [CallUnmarshalStatement IntoProvenanceStatement decodedPayload])
     | Ok stmt =>
         validate (marshalled (Marshal_ProvenancePredicate (Predicate stmt))) (Policies c)
           (logged st1 w [CallUnmarshalStatement IntoProvenanceStatement decodedPayload;
                          CallMarshal (SLSAPredicate (Predicate stmt))])
     end
   else if String.eqb (PredicateType c) PredicateSPDX then
     match Unmarshal_SPDXStatement decodedPayload with
     | Err e =>
         (Return e, logged st1 w [CallUnmarshalStatement IntoSPDXStatement decodedPayload])
     | Ok stmt =>
         validate (marshalled (Marshal_any (Predicate stmt))) (Policies c)
           (logged st1 w [CallUnmarshalStatement IntoSPDXStatement decodedPayload;
                          CallMarshal (SPDXPredicate (Predicate stmt))])
     end
   else (Next tt, st1)).
Proof.
  intros (payloadData & Hp & Hu & Hty & Hpl & Hdec).
  assert (string_neq_any (index_string PredicateTypeMap (PredicateType c))
            (index_any payloadData "payloadType") = false) as Hf.
  { rewrite Hty. cbn. unfold requested. by rewrite String.eqb_refl. }
  unfold forVerified, bind, invoke, compute, check, ret. rewrite Hp. cbn.
  rewrite Hu. cbn. rewrite Hf, Hpl. cbn. rewrite Hdec. cbn.
  unfold validate, bind, invoke, return_, ret, logged, opened.
  repeat (match goal with
          | |- context [String.eqb (PredicateType c) ?t] =>
              destruct (String.eqb (PredicateType c) t)
          end);
    cbn; rewrite <- ?app_assoc; try reflexivity;
    match goal with
    | |- context [match ?r with Ok _ => _ | Err _ => _ end] => destruct r as [stmt|e]
    end;
    cbn; rewrite <- ?app_assoc; try reflexivity;
    match goal with
    | |- context [cue_ValidateJSON ?p ?l ?w0] =>
        destruct (cue_ValidateJSON p l w0) as [[e|] w']
    end;
    cbn; by rewrite <- ?app_assoc.
Qed.

End Run.

(** *** Collaborators that write other statement headers *)

Section Retag.
Context {T : Types}.

Context (X : Externals) (h : StatementHeader -> StatementHeader).

(** No step of the envelope loop reads a statement's header. *)
Lemma forVerified_retag (c : VerifyAttestationCommand RegistryOptions)
    (vp : OciSignature) (st : state) :
  forVerified (X:=retag h X) c vp st = forVerified (X:=X) c vp st.
Proof.
  unfold forVerified, validate, bind, invoke, compute, check, ret, return_. cbn.
  destruct (Payload vp (world st)) as [[payload|e] w]; [|done]. cbn.
  destruct (Unmarshal_map payload) as [payloadData|e]; [|done]. cbn.
  destruct (string_neq_any _ _); [done|].
  destruct (assert_string _ _) as [[s|e|msg] st1]; [|done|done].
  destruct (DecodeString s) as [decodedPayload|e]; [|done]. cbn.
  repeat (match goal with
          | |- context [String.eqb (PredicateType c) ?t] =>
              destruct (String.eqb (PredicateType c) t)
          end);
    try reflexivity; unfold rehead;
    match goal with
    | |- context [@Unmarshal_Statement T X ?d] =>
        destruct (@Unmarshal_Statement T X d) as [stmt|e]
    | |- context [@Unmarshal_LinkStatement T X ?d] =>
        destruct (@Unmarshal_LinkStatement T X d) as [stmt|e]
    | |- context [@Unmarshal_ProvenanceStatement T X ?d] =>
        destruct (@Unmarshal_ProvenanceStatement T X d) as [stmt|e]
    | |- context [@Unmarshal_SPDXStatement T X ?d] =>
        destruct (@Unmarshal_SPDXStatement T X d) as [stmt|e]
    end; reflexivity.
Qed.






End Retag.

(** *** The claims about the command *)

Section Claims.
Context {T : Types} {X : Externals}.

#[local] Abbreviation Command := (VerifyAttestationCommand RegistryOptions).
#[local] Abbreviation Opts := (CheckOpts RemoteOpts CertPool (Verifier VerifyOption World)).

(** C5.  With no key reference, no hardware token and the experimental
    flag unset, [Exec] returns an error at once: the key parse error, or
    the help error when there is no image at all.  The world is as it
    was and not one call was made: no client options, no key loading, no
    reference parsing, no fetch. *)
Theorem Exec_keyless_needs_experimental (c : Command) (images : list string) (w : World) :
  KeyRef c = EmptyString -> Sk c = false -> EnableExperimental w = false ->
  Exec c images w
  = (Returned (Some (match images with [] => ErrHelp | _ :: _ => KeyParseError end)),
     w, []).
Proof.
  intros Hk Hs He. unfold Exec, Exec_body, prepare.
  destruct images as [|imageRef images]; [done|].
  cbn [List.length Nat.eqb]. rewrite Hk, Hs. cbn [OneOf String.eqb negb xorb].
  unfold bind, experimental, ret, return_. cbn. by rewrite He.
Qed.

(** The loop over the references ends at the first reference whose
    attestation verification fails. *)
Lemma range_forImages_error (c : Command) (co : Opts)
    (pre post : list string) (bad : string) (st st1 : state)
    (ref : Reference) (e : error) (w : World) :
  range pre (forImages c co) st = (Next tt, st1) ->
  ParseReference bad = Ok ref ->
  VerifyAttestations ref co (world st1) = (Err e, w) ->
  range (pre ++ bad :: post) (forImages c co) st
  = (Return e, logged st1 w [CallParseReference bad; CallVerifyAttestations ref co]).
Proof.
  intros Hpre Href Hver. revert st Hpre.
  induction pre as [|x pre IH]; intros st Hpre.
  - cbn in Hpre. injection Hpre as <-. cbn [app range]. unfold bind at 1.
    unfold forImages, bind, compute, invoke, check, ret, return_, logged. rewrite Href. cbn.
    rewrite Hver. cbn. by rewrite <- app_assoc.
  - cbn [app range] in *. unfold bind in *.
    destruct (forImages c co x st) as [[[]| |] st']; [by apply IH|done|done].
Qed.

Lemma run_deferred_log (ds : list deferred) (w : World) (l : list call) :
  (run_deferred ds w l).2 = l ++ releases ds.
Proof.
  revert w l. induction ds as [|[sk] ds IH]; intros w l; cbn [run_deferred releases map].
  - by rewrite List.app_nil_r.
  - rewrite IH. by rewrite <- app_assoc.
Qed.

(** C3, amended.  When the attestation verification of one reference
    fails, [Exec] returns that error at once.  Its calls are those made
    up to that reference, the two calls for the failing reference, and
    the deferred releases: none is made for the references that
    follow. *)
Theorem forImages_error_ends_the_run (c : Command) (co : Opts)
    (pre post : list string) (bad : string) (w0 : World) (st0 st1 : state)
    (ref : Reference) (e : error) (w : World) :
  prepare c {| world := w0; log := []; defers := [] |} = (Next co, st0) ->
  range pre (forImages c co) st0 = (Next tt, st1) ->
  ParseReference bad = Ok ref ->
  VerifyAttestations ref co (world st1) = (Err e, w) ->
  (Exec c (pre ++ bad :: post) w0).1.1 = Returned (Some e) /\
  (Exec c (pre ++ bad :: post) w0).2
  = log st1 ++ [CallParseReference bad; CallVerifyAttestations ref co]
    ++ releases (defers st1).
Proof.
  intros Hprep Hpre Href Hver.
  assert (Exec c (pre ++ bad :: post) w0
          = let '(w', l) :=
              run_deferred (defers st1) w
                (log st1 ++ [CallParseReference bad; CallVerifyAttestations ref co]) in
            (Returned (Some e), w', l)) as ->.
  { unfold Exec, Exec_body.
    replace (List.length (pre ++ bad :: post) =? 0)%nat with false
      by (by destruct pre).
    unfold bind at 1. rewrite Hprep.
    by rewrite (range_forImages_error c co pre post bad st0 st1 ref e w Hpre Href Hver). }
  pose proof (run_deferred_log (defers st1) w
                (log st1 ++ [CallParseReference bad; CallVerifyAttestations ref co])) as Hlog.
  destruct (run_deferred _ _ _) as [w' l]. cbn [fst snd] in *.
  split; [done|]. by rewrite Hlog, <- app_assoc.
Qed.


(** C8.  For an envelope that passes the predicate-type filter and whose
    payload and statement decode, the calls are: fetch the payload, parse
    the envelope, decode the base64 payload, parse the statement,
    marshal its [Predicate] field, and evaluate the policy on the bytes
    that came out.  The header of the statement, with its subjects,
    reaches no call, and rewriting it changes nothing. *)
Theorem forVerified_policy_input (c : Command) (vp : OciSignature) (st : state)
    (payload : string) (w : World) (s decodedPayload : string) :
  passes c vp st payload w s decodedPayload ->
  (PredicateType c = PredicateCustom -> forall stmt,
     Unmarshal_Statement decodedPayload = Ok stmt ->
     log (forVerified c vp st).2
     = log st ++ opened vp payload s ++
       [CallUnmarshalStatement IntoStatement decodedPayload;
        CallMarshal (CustomPredicate (Predicate stmt));
        CallValidateJSON (marshalled (Marshal_any (Predicate stmt))) (Policies c)]) /\
  (PredicateType c = PredicateLink -> forall stmt,
     Unmarshal_LinkStatement decodedPayload = Ok stmt ->
     log (forVerified c vp st).2
     = log st ++ opened vp payload s ++
       [CallUnmarshalStatement IntoLinkStatement decodedPayload;
        CallMarshal (LinkPredicate (Predicate stmt));
        CallValidateJSON (marshalled (Marshal_Link (Predicate stmt))) (Policies c)]) /\
  (PredicateType c = PredicateSLSA -> forall stmt,
     Unmarshal_ProvenanceStatement decodedPayload = Ok stmt ->
     log (forVerified c vp st).2
     = log st ++ opened vp payload s ++
       [CallUnmarshalStatement IntoProvenanceStatement decodedPayload;
        CallMarshal (SLSAPredicate (Predicate stmt));
        CallValidateJSON (marshalled (Marshal_ProvenancePredicate (Predicate stmt)))
          (Policies c)]) /\
  (PredicateType c = PredicateSPDX -> forall stmt,
     Unmarshal_SPDXStatement decodedPayload = Ok stmt ->
     log (forVerified c vp st).2
     = log st ++ opened vp payload s ++
       [CallUnmarshalStatement IntoSPDXStatement decodedPayload;
        CallMarshal (SPDXPredicate (Predicate stmt));
        CallValidateJSON (marshalled (Marshal_any (Predicate stmt))) (Policies c)]) /\
  (forall h, forVerified (X:=retag h X) c vp st = forVerified c vp st).
Proof.
  intros Hpass. pose proof (forVerified_passes _ _ _ _ _ _ _ Hpass) as Heq.
  cbv zeta in Heq.
  split; [|split; [|split; [|split]]].
  - intros Hc stmt Hs. rewrite Heq, Hc, Hs. cbn [String.eqb Ascii.eqb Bool.eqb PredicateCustom].
    rewrite validate_unfold. cbn [snd logged log]. by rewrite <- !app_assoc.
  - intros Hc stmt Hs. rewrite Heq, Hc, Hs.
    cbn [String.eqb Ascii.eqb Bool.eqb PredicateCustom PredicateLink].
    rewrite validate_unfold. cbn [snd logged log]. by rewrite <- !app_assoc.
  - intros Hc stmt Hs. rewrite Heq, Hc, Hs.
    cbn [String.eqb Ascii.eqb Bool.eqb PredicateCustom PredicateLink PredicateSLSA].
    rewrite validate_unfold. cbn [snd logged log]. by rewrite <- !app_assoc.
  - intros Hc stmt Hs. rewrite Heq, Hc, Hs.
    cbn [String.eqb Ascii.eqb Bool.eqb PredicateCustom PredicateLink PredicateSLSA
           PredicateSPDX].
    rewrite validate_unfold. cbn [snd logged log]. by rewrite <- !app_assoc.
  - intros h. apply forVerified_retag.
Qed.


(** *** The deferred release of the token *)

Create HintDb quiet.

Lemma no_close_nil : no_close [].
Proof. intros sk H. by apply elem_of_nil in H. Qed.

Lemma no_close_app l1 l2 : no_close l1 -> no_close l2 -> no_close (l1 ++ l2).
Proof. intros H1 H2 sk [H|H]%elem_of_app; [by apply (H1 sk)|by apply (H2 sk)]. Qed.

Lemma no_close_one (c : call) : (forall sk, c <> CallClose sk) -> no_close [c].
Proof. intros Hc sk H. apply list_elem_of_singleton in H. by apply (Hc sk). Qed.

Lemma quiet_ret {A : Type} (a : A) : quiet (ret a).
Proof. intros st. exists []. split; [apply no_close_nil|]. by rewrite List.app_nil_r. Qed.

Lemma quiet_return {A : Type} (e : error) : quiet (return_ (A:=A) e).
Proof. intros st. exists []. split; [apply no_close_nil|]. by rewrite List.app_nil_r. Qed.

Lemma quiet_panic {A : Type} (msg : string) : quiet (panic (A:=A) msg).
Proof. intros st. exists []. split; [apply no_close_nil|]. by rewrite List.app_nil_r. Qed.

Lemma quiet_experimental : quiet experimental.
Proof. intros st. exists []. split; [apply no_close_nil|]. by rewrite List.app_nil_r. Qed.

Lemma quiet_invoke {A : Type} (c : call) (f : World -> A * World) :
  (forall sk, c <> CallClose sk) -> quiet (invoke c f).
Proof.
  intros Hc st. exists [c]. split; [by apply no_close_one|].
  unfold invoke. by destruct (f (world st)).
Qed.

Lemma quiet_compute {A : Type} (c : call) (a : A) :
  (forall sk, c <> CallClose sk) -> quiet (compute c a).
Proof. intros Hc st. exists [c]. split; [by apply no_close_one|done]. Qed.

Lemma quiet_check {A : Type} (r : result A) (wrap : error -> error) : quiet (check r wrap).
Proof. destruct r; [apply quiet_ret|apply quiet_return]. Qed.

Lemma quiet_bind {A B : Type} (m : M A) (k : A -> M B) :
  quiet m -> (forall a, quiet (k a)) -> quiet (bind m k).
Proof.
  intros Hm Hk st. destruct (Hm st) as (l1 & Hl1 & Hd1 & Hlog1). unfold bind.
  destruct (m st) as [[a|e|msg] st1]; cbn [snd] in *; [|by exists l1|by exists l1].
  destruct (Hk a st1) as (l2 & Hl2 & Hd2 & Hlog2). exists (l1 ++ l2).
  split; [by apply no_close_app|]. split; [congruence|].
  rewrite Hlog2, Hlog1. by rewrite app_assoc.
Qed.

Lemma quiet_range {A : Type} (xs : list A) (body : A -> M unit) :
  (forall x, quiet (body x)) -> quiet (range xs body).
Proof.
  intros Hb. induction xs as [|x xs IH]; cbn [range]; [apply quiet_ret|].
  apply quiet_bind; [apply Hb|done].
Qed.

Lemma quiet_validate (payload : string) (policies : list string) :
  quiet (validate payload policies).
Proof.
  unfold validate. apply quiet_bind; [by apply quiet_invoke|].
  intros [e|]; [apply quiet_return|apply quiet_ret].
Qed.

Lemma quiet_assert_string (v : value float64) : quiet (assert_string v).
Proof. destruct v; first [apply quiet_ret | apply quiet_panic]. Qed.

#[local] Hint Resolve quiet_ret quiet_return quiet_panic quiet_validate
  quiet_assert_string quiet_check quiet_bind quiet_range : quiet.
#[local] Hint Extern 1 (quiet (invoke _ _)) => apply quiet_invoke; discriminate : quiet.
#[local] Hint Extern 1 (quiet (compute _ _)) => apply quiet_compute; discriminate : quiet.

Lemma quiet_forVerified (c : Command) (vp : OciSignature) : quiet (forVerified c vp).
Proof.
  unfold forVerified.
  repeat (apply quiet_bind; [auto with quiet|intros ?]).
  destruct (string_neq_any _ _); [apply quiet_ret|].
  repeat (apply quiet_bind; [auto with quiet|intros ?]).
  repeat (match goal with
          | |- context [String.eqb (PredicateType c) ?t] =>
              destruct (String.eqb (PredicateType c) t)
          end);
    auto 10 with quiet.
Qed.

#[local] Hint Resolve quiet_forVerified : quiet.

Lemma quiet_forImages (c : Command) (co : Opts) (imageRef : string) :
  quiet (forImages c co imageRef).
Proof.
  unfold forImages.
  repeat (apply quiet_bind; [auto with quiet|intros ?]).
  match goal with a : _ * _ |- _ => destruct a as [verified bundleVerified] end.
  auto 10 with quiet.
Qed.

(** C9.  When the token was acquired, [Exec] ends with the release of
    that token, however it ends - by return or by panic - and it
    releases no token before: the release happens exactly once.  When
    the verifier cannot be made from the token, the calls are the client
    options, the roots in experimental mode, the acquisition, the failed
    construction, and the release. *)
Theorem Exec_releases_token (c : Command) (images : list string) (w w1 w3 : World)
    (ociremoteOpts : RemoteOpts) (sk : Key) :
  images <> [] -> KeyRef c = EmptyString -> Sk c = true ->
  ClientOpts (RegistryOptions_ c) w = (Ok ociremoteOpts, w1) ->
  GetKeyWithSlot (Slot c) (if EnableExperimental w1 then (GetRoots w1).2 else w1)
  = (Ok sk, w3) ->
  (exists out w4 l,
     Exec c images w = (out, Close sk w4, l ++ [CallClose sk]) /\ no_close l) /\
  (forall e w4,
     Key_Verifier sk w3 = (Err e, w4) ->
     Exec c images w
     = (Returned (Some (errors_Wrap e "initializing piv token verifier")),
        Close sk w4,
        CallClientOpts :: (if EnableExperimental w1 then [CallGetRoots] else []) ++
        [CallGetKeyWithSlot (Slot c); CallKeyVerifier sk; CallClose sk])).
Proof.
  intros Himg Hk Hs Hco Hget.
  destruct images as [|imageRef images]; [done|].
  set (imgs := imageRef :: images).
  set (pre := CallClientOpts :: (if EnableExperimental w1 then [CallGetRoots] else [])).
  assert (no_close (pre ++ [CallGetKeyWithSlot (Slot c); CallKeyVerifier sk])) as Hpre.
  { intros k. unfold pre. destruct (EnableExperimental w1); cbn;
      intros H; repeat (apply elem_of_cons in H as [H|H]; [discriminate|]);
      by apply elem_of_nil in H. }
  set (co := fun v : Verifier VerifyOption World =>
               {| RegistryClientOpts := ociremoteOpts;
                  ClaimVerifier_ :=
                    if CheckClaims c then Some IntotoSubjectClaimVerifier else None;
                  RekorURL_ := if EnableExperimental w1 then RekorURL c else EmptyString;
                  RootCerts := if EnableExperimental w1 then Some (GetRoots w1).1 else None;
                  SigVerifier_ := Some (reverseDSSEVerifier (WrapVerifier (Some v))) |}).
  assert (Exec_body c imgs {| world := w; log := []; defers := [] |}
          = match Key_Verifier sk w3 with
            | (Err e, w4) =>
                (Return (errors_Wrap e "initializing piv token verifier"),
                 {| world := w4;
                    log := pre ++ [CallGetKeyWithSlot (Slot c); CallKeyVerifier sk];
                    defers := [DeferClose sk] |})
            | (Ok v, w4) =>
                range imgs (forImages c (co v))
                  {| world := w4;
                     log := pre ++ [CallGetKeyWithSlot (Slot c); CallKeyVerifier sk];
                     defers := [DeferClose sk] |}
            end) as Hbody.
  { unfold Exec_body, prepare, imgs. cbn [List.length Nat.eqb]. rewrite Hk, Hs.
    cbn [OneOf String.eqb negb xorb].
    unfold loadKey. rewrite Hk, Hs. cbn [String.eqb negb].
    unfold bind, experimental, invoke, check, defer, ret, return_. cbn. rewrite Hco. cbn.
    unfold pre, co. destruct (EnableExperimental w1); cbn.
    - destruct (GetRoots w1) as [roots w2]. cbn in *. rewrite Hget. cbn.
      by destruct (Key_Verifier sk w3) as [[v|e] w4].
    - rewrite Hget. cbn.
      by destruct (Key_Verifier sk w3) as [[v|e] w4]. }
  split.
  - unfold Exec. fold imgs. rewrite Hbody.
    destruct (Key_Verifier sk w3) as [[v|e] w4].
    + destruct (quiet_range imgs (forImages c (co v)) (quiet_forImages c (co v))
                  {| world := w4;
                     log := pre ++ [CallGetKeyWithSlot (Slot c); CallKeyVerifier sk];
                     defers := [DeferClose sk] |}) as (l & Hl & Hd & Hlog).
      destruct (range imgs (forImages c (co v)) _) as [f st']. cbn [snd defers log] in *.
      rewrite Hd, Hlog. cbn [run_deferred].
      eexists _, _, _. split; [reflexivity|]. by apply no_close_app.
    + cbn [run_deferred defers log world]. eexists _, _, _. split; [reflexivity|done].
  - intros e w4 Hv. unfold Exec. fold imgs. rewrite Hbody, Hv.
    cbn [run_deferred defers log world]. unfold pre. by rewrite <- app_assoc.
Qed.

End Claims.

(** *** The command in the small world *)

(** Keyless mode without the experimental flag, one image. *)
Lemma Exec_keyless_needs_experimental_witness :
  Exec (X:=Demo.externals) (Demo.command EmptyString false) ["example.com/app:v1"] tt
  = (Returned (Some KeyParseError), tt, []).
Proof.
  apply (Exec_keyless_needs_experimental (X:=Demo.externals)
           (Demo.command EmptyString false) ["example.com/app:v1"] tt); reflexivity.
Defined.

(** C3 fails on the code: the fetch for the first of two references
    fails, [Exec] returns that error, and no call is made for the second
    reference. *)
Lemma Exec_continues_counterexample :
  (Exec (X:=Demo.externals) (Demo.command "key.pub" false) ["bad"; "good"] tt).1.1
  = Returned (Some Demo.fetch_error) /\
  CallParseReference (T:=Demo.types) "bad"
    ∈ (Exec (X:=Demo.externals) (Demo.command "key.pub" false) ["bad"; "good"] tt).2 /\
  CallParseReference (T:=Demo.types) "good"
    ∉ (Exec (X:=Demo.externals) (Demo.command "key.pub" false) ["bad"; "good"] tt).2.
Proof.
  split; [reflexivity|]. split.
  - cbn. do 2 apply list_elem_of_further. apply list_elem_of_here.
  - cbn. intros H.
    repeat (apply elem_of_cons in H as [H|H]; [discriminate H|]).
    by apply elem_of_nil in H.
Qed.

(** The failing reference first, another one after it: the run with a
    public key asks for the client options and the key, then parses the
    failing reference and fails on its attestations. *)
Lemma forImages_error_ends_the_run_witness :
  (Exec (X:=Demo.externals) (Demo.command "key.pub" false) ["bad"; "good"] tt).1.1
  = Returned (Some Demo.fetch_error) /\
  (Exec (X:=Demo.externals) (Demo.command "key.pub" false) ["bad"; "good"] tt).2
  = [CallClientOpts; CallPublicKeyFromKeyRef "key.pub";
     CallParseReference (T:=Demo.types) "bad";
     CallVerifyAttestations (T:=Demo.types) "bad" Demo.opts].
Proof.
  apply (forImages_error_ends_the_run (X:=Demo.externals) (Demo.command "key.pub" false)
           Demo.opts [] ["good"] "bad" tt
           (@mkState Demo.types tt [CallClientOpts; CallPublicKeyFromKeyRef "key.pub"] [])
           (@mkState Demo.types tt [CallClientOpts; CallPublicKeyFromKeyRef "key.pub"] [])
           "bad" Demo.fetch_error tt); reflexivity.
Defined.

(** The envelope of another type is skipped. *)
Lemma forVerified_skips_other_types_witness :
  forVerified (X:=Demo.externals) (Demo.command "key.pub" false) "envelope-other" Demo.start
  = (Next tt,
     logged Demo.start tt
       [CallPayload (T:=Demo.types) "envelope-other";
        CallUnmarshalEnvelope "envelope-other"]).
Proof.
  apply (proj1 (forVerified_skips_other_types (X:=Demo.externals)
                  (Demo.command "key.pub" false) "envelope-other" Demo.start "envelope-other" tt
                  {[ "payloadType" := Str "text/plain"; "payload" := Str "aGVsbG8=" ]}
                  eq_refl eq_refl ltac:(vm_compute; discriminate))).
Defined.

(** The envelope of the custom type passes the filter. *)
Lemma custom_passes :
  passes (X:=Demo.externals) (Demo.command "key.pub" false) "envelope-custom" Demo.start
    "envelope-custom" tt "c3RhdGVtZW50" "decoded c3RhdGVtZW50".
Proof.
  exists {[ "payloadType" := Str Demo.custom_uri; "payload" := Str "c3RhdGVtZW50" ]}.
  repeat split; vm_compute; reflexivity.
Defined.

(** Its policy input is the marshalled predicate. *)
Lemma forVerified_policy_input_witness :
  log (forVerified (X:=Demo.externals) (Demo.command "key.pub" false)
         "envelope-custom" Demo.start).2
  = [CallPayload (T:=Demo.types) "envelope-custom";
     CallUnmarshalEnvelope "envelope-custom";
     CallDecodeString "c3RhdGVtZW50";
     CallUnmarshalStatement IntoStatement "decoded c3RhdGVtZW50";
     CallMarshal (CustomPredicate (Map {[ "Data" := Str "foo" ]}));
     CallValidateJSON "predicate" ["policy.cue"]].
Proof.
  apply (proj1 (forVerified_policy_input (X:=Demo.externals)
                  (Demo.command "key.pub" false) "envelope-custom" Demo.start
                  "envelope-custom" tt "c3RhdGVtZW50" "decoded c3RhdGVtZW50"
                  custom_passes) eq_refl Demo.statement eq_refl).
Defined.


(** The token is acquired, the verifier cannot be made from it, and the
    token is released. *)
Lemma Exec_releases_token_witness :
  Exec (X:=Demo.externals) (Demo.command EmptyString true) ["example.com/app:v1"] tt
  = (Returned (Some (errors_Wrap Demo.token_error "initializing piv token verifier")), tt,
     [CallClientOpts; CallGetKeyWithSlot "9c"; CallKeyVerifier (T:=Demo.types) 7;
      CallClose (T:=Demo.types) 7]).
Proof.
  apply (proj2 (Exec_releases_token (X:=Demo.externals) (Demo.command EmptyString true)
                  ["example.com/app:v1"] tt tt tt tt 7
                  ltac:(discriminate) eq_refl eq_refl eq_refl eq_refl)
           Demo.token_error tt eq_refl).
Defined.

End VerifyFacts.

(** ** Whole runs of the command *)

Module ExecFacts.
Import Json Verify VerifyFacts.

#[local] Open Scope list_scope.

Section Steps.
Context {T : Types} {X : Externals}.

#[local] Abbreviation Command := (VerifyAttestationCommand RegistryOptions).
#[local] Abbreviation Opts := (CheckOpts RemoteOpts CertPool (Verifier VerifyOption World)).

(** *** Steps and the calls they add *)

Lemma adds_weaken {A : Type} (P Q P' Q' : call -> Prop) (m : M A) :
  (forall x, P x -> P' x) -> (forall x, Q x -> Q' x) -> adds P Q m -> adds P' Q' m.
Proof.
  intros HP HQ Hm st. destruct (Hm st) as (l & Hlog & HPl & HQl). exists l.
  split; [done|]. split; [by eapply Forall_impl|].
  intros a Ha. eapply Forall_impl; [by eapply HQl|done].
Qed.

Section Adds.
Variables P Q : call -> Prop.

Lemma adds_silent {A : Type} (m : M A) :
  (forall st, log (m st).2 = log st) -> adds P Q m.
Proof.
  intros Hm st. exists []. rewrite Hm, List.app_nil_r.
  split; [done|]. split; [constructor|]. intros; constructor.
Qed.

Lemma adds_ret {A : Type} (a : A) : adds P Q (ret a).
Proof. by apply adds_silent. Qed.

Lemma adds_return {A : Type} (e : error) : adds P Q (return_ (A:=A) e).
Proof. by apply adds_silent. Qed.

Lemma adds_panic {A : Type} (msg : string) : adds P Q (panic (A:=A) msg).
Proof. by apply adds_silent. Qed.

Lemma adds_experimental : adds P Q experimental.
Proof. by apply adds_silent. Qed.

Lemma adds_defer (d : deferred) : adds P Q (defer d).
Proof. by apply adds_silent. Qed.

Lemma adds_check {A : Type} (r : result A) (wrap : error -> error) : adds P Q (check r wrap).
Proof. destruct r; [apply adds_ret|apply adds_return]. Qed.

Lemma adds_assert_string (v : value float64) : adds P Q (assert_string v).
Proof. destruct v; first [apply adds_ret | apply adds_panic]. Qed.

Lemma adds_invoke {A : Type} (x : call) (f : World -> A * World) :
  P x -> Q x -> adds P Q (invoke x f).
Proof.
  intros HP HQ st. exists [x]. unfold invoke. destruct (f (world st)). cbn.
  split; [done|]. split; [by repeat constructor|]. intros; by repeat constructor.
Qed.

Lemma adds_compute {A : Type} (x : call) (a : A) : P x -> Q x -> adds P Q (compute x a).
Proof.
  intros HP HQ st. exists [x]. cbn.
  split; [done|]. split; [by repeat constructor|]. intros; by repeat constructor.
Qed.

Lemma adds_validate (payload : string) (policies : list string) :
  P (CallValidateJSON payload policies) ->
  (forall w, (cue_ValidateJSON payload policies w).1 = None ->
             Q (CallValidateJSON payload policies)) ->
  adds P Q (validate payload policies).
Proof.
  intros HP HV st. exists [CallValidateJSON payload policies]. rewrite validate_unfold.
  cbn [fst snd logged log]. split; [done|]. split; [by repeat constructor|].
  intros a Ha. destruct (cue_ValidateJSON payload policies (world st)).1 eqn:E; [done|].
  repeat constructor. by eapply HV.
Qed.

Lemma adds_bind_after {A B : Type} (R : A -> Prop) (m : M A) (k : A -> M B) :
  adds P Q m -> (forall st a st', m st = (Next a, st') -> R a) ->
  (forall a, R a -> adds P Q (k a)) -> adds P Q (bind m k).
Proof.
  intros Hm HR Hk st. destruct (Hm st) as (l1 & Hlog1 & HP1 & HQ1). unfold bind.
  destruct (m st) as [[a|e|msg] st1] eqn:E; cbn [fst snd] in *;
    [|exists l1; by repeat split|exists l1; by repeat split].
  destruct (Hk a (HR st a st1 E) st1) as (l2 & Hlog2 & HP2 & HQ2). exists (l1 ++ l2).
  split; [by rewrite Hlog2, Hlog1, app_assoc|]. split; [by apply Forall_app|].
  intros b Hb. apply Forall_app. split; [by eapply HQ1|by eapply HQ2].
Qed.

Lemma adds_bind {A B : Type} (m : M A) (k : A -> M B) :
  adds P Q m -> (forall a, adds P Q (k a)) -> adds P Q (bind m k).
Proof.
  intros Hm Hk. apply (adds_bind_after (fun _ => True)); [done|done|]. intros a _. apply Hk.
Qed.

Lemma adds_range {A : Type} (xs : list A) (body : A -> M unit) :
  (forall x, adds P Q (body x)) -> adds P Q (range xs body).
Proof.
  intros Hb. induction xs as [|x xs IH]; cbn [range]; [apply adds_ret|].
  apply adds_bind; [apply Hb|done].
Qed.

End Adds.

(** *** The calls of each part of [Exec] *)

Section Parts.
Variables P Q : call -> Prop.
Variable c : Command.
Hypothesis HQ : forall x, policy_call x = false -> Q x.
Hypothesis HV : forall payload w,
  (cue_ValidateJSON payload (Policies c) w).1 = None ->
  Q (CallValidateJSON payload (Policies c)).

Lemma adds_forVerified (vp : OciSignature) :
  (forall x, may c x -> envelope_call x = true -> P x) ->
  adds P Q (forVerified c vp).
Proof.
  intros HP. unfold forVerified.
  apply adds_bind; [apply adds_invoke; [by apply HP|by apply HQ]|intros r].
  apply adds_bind; [apply adds_check|intros payload].
  apply adds_bind; [apply adds_compute; [by apply HP|by apply HQ]|intros r'].
  apply adds_bind; [apply adds_check|intros payloadData].
  destruct (string_neq_any _ _); [apply adds_ret|].
  apply adds_bind; [apply adds_assert_string|intros s].
  apply adds_bind; [apply adds_compute; [by apply HP|by apply HQ]|intros r''].
  apply adds_bind; [apply adds_check|intros decodedPayload].
  assert (forall into, branch (PredicateType c) = Some into ->
          forall A (parsed : result A) (k : A -> M unit),
            (forall a, is_Some (branch (PredicateType c)) -> adds P Q (k a)) ->
            adds P Q (bind (compute (CallUnmarshalStatement into decodedPayload) parsed)
                        (fun r => bind (check r id) k))) as Hparse.
  { intros into Hb A parsed k Hk.
    apply adds_bind; [apply adds_compute; [by apply HP|by apply HQ]|intros r0].
    apply adds_bind; [apply adds_check|intros a]. apply Hk. by rewrite Hb. }
  assert (forall p bytes, is_Some (branch (PredicateType c)) ->
          adds P Q (bind (compute (CallMarshal p) bytes)
                      (fun payload => validate payload (Policies c)))) as Hrest.
  { intros p bytes Hb.
    apply adds_bind; [apply adds_compute; [by apply HP|by apply HQ]|intros b].
    apply adds_validate; [by apply HP|apply HV]. }
  destruct (String.eqb (PredicateType c) PredicateCustom) eqn:E1.
  { apply (Hparse IntoStatement); [unfold branch; by rewrite E1|]. intros; by apply Hrest. }
  destruct (String.eqb (PredicateType c) PredicateLink) eqn:E2.
  { apply (Hparse IntoLinkStatement); [unfold branch; by rewrite E1, E2|].
    intros; by apply Hrest. }
  destruct (String.eqb (PredicateType c) PredicateSLSA) eqn:E3.
  { apply (Hparse IntoProvenanceStatement); [unfold branch; by rewrite E1, E2, E3|].
    intros; by apply Hrest. }
  destruct (String.eqb (PredicateType c) PredicateSPDX) eqn:E4.
  { apply (Hparse IntoSPDXStatement); [unfold branch; by rewrite E1, E2, E3, E4|].
    intros; by apply Hrest. }
  apply adds_ret.
Qed.

Lemma adds_forImages (co : Opts) (imageRef : string) :
  built_for c co ->
  (forall x, may c x -> setup_call x = false -> token_call x = false -> P x) ->
  adds P Q (forImages c co imageRef).
Proof.
  intros Hco HP. unfold forImages.
  apply adds_bind; [apply adds_compute; [by apply HP|by apply HQ]|intros r].
  apply adds_bind; [apply adds_check|intros ref].
  apply adds_bind; [apply adds_invoke; [by apply HP|by apply HQ]|intros r'].
  apply adds_bind; [apply adds_check|intros [verified bundleVerified]].
  apply adds_bind.
  { apply adds_range. intros vp. apply adds_forVerified. intros x Hx Hex.
    apply HP; [done|by destruct x|by destruct x]. }
  intros _. apply adds_bind; [apply adds_invoke; [by apply HP|by apply HQ]|intros _].
  apply adds_invoke; [by apply HP|by apply HQ].
Qed.

Lemma adds_loadKey :
  (forall x, may c x -> setup_call x = true -> P x) -> adds P Q (loadKey c).
Proof.
  intros HP. unfold loadKey.
  destruct (String.eqb_spec (KeyRef c) EmptyString) as [Hk|Hk]; cbn [negb].
  - destruct (Sk c) eqn:Hs; [|apply adds_ret].
    apply adds_bind; [apply adds_invoke; [by apply HP|by apply HQ]|intros r].
    apply adds_bind; [apply adds_check|intros sk].
    apply adds_bind; [apply adds_defer|intros _].
    apply adds_bind; [apply adds_invoke; [by apply HP|by apply HQ]|intros r'].
    apply adds_bind; [apply adds_check|intros pubKey]. apply adds_ret.
  - apply adds_bind; [apply adds_invoke; [by apply HP|by apply HQ]|intros r].
    apply adds_bind; [apply adds_check|intros pubKey]. apply adds_ret.
Qed.

Lemma adds_prepare :
  (forall x, may c x -> setup_call x = true -> P x) -> adds P Q (prepare c).
Proof.
  intros HP. unfold prepare. apply adds_bind.
  { destruct (negb (OneOf (KeyRef c) (Sk c))); [|apply adds_ret].
    apply adds_bind; [apply adds_experimental|intros e; apply adds_ret]. }
  intros [|]; [apply adds_return|].
  apply adds_bind; [apply adds_invoke; [by apply HP|by apply HQ]|intros r].
  apply adds_bind; [apply adds_check|intros ociremoteOpts]. cbv zeta.
  apply adds_bind; [apply adds_experimental|intros e]. apply adds_bind.
  { destruct e; [|apply adds_ret].
    apply adds_bind; [apply adds_invoke; [by apply HP|by apply HQ]|intros roots].
    apply adds_ret. }
  intros [rekor roots]. apply adds_bind; [by apply adds_loadKey|intros pubKey].
  apply adds_ret.
Qed.

End Parts.

(** *** What the statements before the loop hand to the loop *)

Lemma bind_Next {A B : Type} (m : M A) (k : A -> M B) (st st' : state) (b : B) :
  bind m k st = (Next b, st') ->
  exists a st1, m st = (Next a, st1) /\ k a st1 = (Next b, st').
Proof. unfold bind. destruct (m st) as [[a|e|msg] st1]; [by eauto|done|done]. Qed.

Lemma check_Next {A : Type} (r : result A) (wrap : error -> error) (st st' : state) (a : A) :
  check r wrap st = (Next a, st') -> r = Ok a.
Proof. destruct r; cbn; by intros [= ->]. Qed.

Lemma loadKey_result (c : Command) (st st' : state)
    (pubKey : option (Verifier VerifyOption World)) :
  loadKey c st = (Next pubKey, st') ->
  (pubKey = None <-> KeyRef c = EmptyString /\ Sk c = false).
Proof.
  unfold loadKey. destruct (String.eqb_spec (KeyRef c) EmptyString) as [Hk|Hk]; cbn [negb].
  - destruct (Sk c) eqn:Hs; [|intros [= <- _]; done].
    intros (r & st1 & _ & H)%bind_Next. apply bind_Next in H as (sk & st2 & _ & H).
    apply bind_Next in H as (u & st3 & _ & H). apply bind_Next in H as (r' & st4 & _ & H).
    apply bind_Next in H as (v & st5 & _ & H). injection H as <- _. split; [done|].
    by intros [_ ?].
  - intros (r & st1 & _ & H)%bind_Next. apply bind_Next in H as (v & st2 & _ & H).
    injection H as <- _. split; [done|]. by intros [? _].
Qed.

Lemma prepare_built (c : Command) (st st' : state) (co : Opts) :
  prepare c st = (Next co, st') -> built_for c co.
Proof.
  unfold prepare. intros (keyless & st1 & _ & H)%bind_Next.
  destruct keyless; [done|].
  apply bind_Next in H as (r & st2 & _ & H).
  apply bind_Next in H as (ociremoteOpts & st3 & _ & H). cbv zeta in H.
  apply bind_Next in H as (e & st4 & _ & H).
  apply bind_Next in H as ([rekor roots] & st5 & Htrust & H).
  apply bind_Next in H as (pubKey & st6 & Hkey%loadKey_result & H).
  injection H as <- _. unfold built_for. cbn. split; [done|]. split; [by exists pubKey|].
  destruct e.
  - apply bind_Next in Htrust as (rs & st7 & _ & Htrust). injection Htrust as <- <- _.
    left. by eauto.
  - injection Htrust as <- <- _. by right.
Qed.

(** *** The deferred calls a run registers *)

Lemma quiet_prepare (c : Command) :
  KeyRef c <> EmptyString \/ Sk c = false -> quiet (prepare c).
Proof.
  intros Hc. unfold prepare. apply quiet_bind.
  { destruct (negb (OneOf (KeyRef c) (Sk c))); [|apply quiet_ret].
    apply quiet_bind; [apply quiet_experimental|intros e; apply quiet_ret]. }
  intros [|]; [apply quiet_return|].
  apply quiet_bind; [by apply quiet_invoke|intros r].
  apply quiet_bind; [apply quiet_check|intros ociremoteOpts]. cbv zeta.
  apply quiet_bind; [apply quiet_experimental|intros e]. apply quiet_bind.
  { destruct e; [|apply quiet_ret].
    apply quiet_bind; [by apply quiet_invoke|intros roots]. apply quiet_ret. }
  intros [rekor roots]. apply quiet_bind; [|intros pubKey; apply quiet_ret].
  unfold loadKey. destruct (String.eqb_spec (KeyRef c) EmptyString) as [Hk|Hk]; cbn [negb].
  - destruct Hc as [Hc|Hc]; [done|]. rewrite Hc. apply quiet_ret.
  - apply quiet_bind; [by apply quiet_invoke|intros r'].
    apply quiet_bind; [apply quiet_check|intros v]. apply quiet_ret.
Qed.

Lemma quiet_Exec_body (c : Command) (images : list string) :
  KeyRef c <> EmptyString \/ Sk c = false -> quiet (Exec_body c images).
Proof.
  intros Hc. unfold Exec_body. destruct (List.length images =? 0)%nat; [apply quiet_return|].
  apply quiet_bind; [by apply quiet_prepare|intros co].
  apply quiet_range. intros imageRef. apply quiet_forImages.
Qed.

Lemma Exec_body_defers (c : Command) (images : list string) (st : state) :
  defers (Exec_body c images st).2 = defers st \/ (KeyRef c = EmptyString /\ Sk c = true).
Proof.
  destruct (String.eqb_spec (KeyRef c) EmptyString) as [Hk|Hk].
  - destruct (Sk c) eqn:Hs; [by right|]. left.
    destruct (quiet_Exec_body c images (or_intror Hs) st) as (l & _ & Hd & _). done.
  - left. destruct (quiet_Exec_body c images (or_introl Hk) st) as (l & _ & Hd & _). done.
Qed.

(** *** The calls of a whole run *)

Lemma adds_Exec_body (P Q : call -> Prop) (c : Command) (images : list string) :
  (forall x, policy_call x = false -> Q x) ->
  (forall payload w, (cue_ValidateJSON payload (Policies c) w).1 = None ->
                     Q (CallValidateJSON payload (Policies c))) ->
  (forall x, may c x -> P x) ->
  adds P Q (Exec_body c images).
Proof.
  intros HQ HV HP. unfold Exec_body.
  destruct (List.length images =? 0)%nat; [apply adds_return|].
  apply (adds_bind_after P Q (built_for c)).
  - apply adds_prepare; [done|]. intros x Hx _. by apply HP.
  - intros st co st'. apply prepare_built.
  - intros co Hco. apply adds_range. intros imageRef.
    apply adds_forImages; [done|done|done|]. intros x Hx _ _. by apply HP.
Qed.

Lemma Exec_calls (P Q : call -> Prop) (c : Command) (images : list string) (w : World) :
  (forall x, policy_call x = false -> Q x) ->
  (forall payload w, (cue_ValidateJSON payload (Policies c) w).1 = None ->
                     Q (CallValidateJSON payload (Policies c))) ->
  (forall x, may c x -> P x) ->
  Forall P (Exec c images w).2 /\
  ((Exec c images w).1.1 = Returned None -> Forall Q (Exec c images w).2).
Proof.
  intros HQ HV HP.
  destruct (adds_Exec_body P Q c images HQ HV HP {| world := w; log := []; defers := [] |})
    as (l & Hlog & HPl & HQl).
  pose proof (Exec_body_defers c images {| world := w; log := []; defers := [] |}) as Hd.
  unfold Exec.
  destruct (Exec_body c images {| world := w; log := []; defers := [] |}) as [f st'].
  cbn [fst snd log defers] in *.
  pose proof (run_deferred_log (defers st') (world st') (log st')) as Hrun.
  destruct (run_deferred _ _ _) as [w' l']. cbn [fst snd] in *. subst l'. rewrite Hlog.
  cbn [app].
  assert (forall R : call -> Prop, (forall sk, KeyRef c = EmptyString /\ Sk c = true ->
                                               R (CallClose sk)) ->
          Forall R (releases (defers st'))) as Hrel.
  { intros R HR. destruct Hd as [->|Hd]; [constructor|].
    unfold releases. apply Forall_map, Forall_forall. intros [sk] _. by apply HR. }
  split.
  - apply Forall_app. split; [done|]. apply Hrel. intros sk Hsk. by apply HP.
  - intros Hf. apply Forall_app. split.
    + destruct f as [[]| |]; [by apply (HQl tt)|done|done].
    + apply Hrel. intros sk _. by apply HQ.
Qed.

(** *** What no run does *)

(** X1.  With a key reference, or without the token flag, no run of
    [Exec] touches the hardware token: no call opens it, asks it for a
    verifier or closes it.  The key reference comes first: it is so even
    when the token flag is set beside it. *)
Theorem Exec_key_reference_first (c : Command) (images : list string) (w : World) :
  KeyRef c <> EmptyString \/ Sk c = false ->
  Forall (fun x => token_call x = false) (Exec c images w).2.
Proof.
  intros Hc.
  apply (Exec_calls (fun x => token_call x = false) (fun _ => True) c images w);
    [done|done|].
  intros x Hx. destruct x; cbn in *; try done; exfalso; intuition congruence.
Qed.

Lemma policy_inputs_none (l : list call) :
  Forall (fun x => policy_call x = false) l -> policy_inputs l = [].
Proof.
  induction 1 as [|x l Hx _ IH]; [done|]. unfold policy_inputs in *.
  by destruct x; cbn in *.
Qed.

Lemma statement_parses_none (l : list call) :
  Forall (fun x => match x with CallUnmarshalStatement _ _ => False | _ => True end) l ->
  statement_parses l = [].
Proof.
  induction 1 as [|x l Hx _ IH]; [done|]. unfold statement_parses in *.
  by destruct x; cbn in *.
Qed.

(** X2.  In every run of [Exec] each call of the policy evaluator gets
    the policies of the command, and each statement is parsed into the
    type the requested predicate type picks.  When the requested
    predicate type is none of custom, link, slsaprovenance and spdx, no
    run parses a statement or evaluates a policy at all. *)
Theorem Exec_policy_calls (c : Command) (images : list string) (w : World) :
  Forall (fun x => match x with
                   | CallValidateJSON _ policies => policies = Policies c
                   | CallUnmarshalStatement into _ => branch (PredicateType c) = Some into
                   | _ => True
                   end) (Exec c images w).2 /\
  (branch (PredicateType c) = None ->
   policy_inputs (Exec c images w).2 = [] /\ statement_parses (Exec c images w).2 = []).
Proof.
  split.
  - apply (Exec_calls _ (fun _ => True) c images w); [done|done|].
    intros x Hx. destruct x; cbn in *; try done. by destruct Hx.
  - intros Hb. split.
    + apply policy_inputs_none.
      apply (Exec_calls _ (fun _ => True) c images w); [done|done|].
      intros x Hx. destruct x; cbn in *; try done. destruct Hx as [_ [t Ht]]. congruence.
    + apply statement_parses_none.
      apply (Exec_calls _ (fun _ => True) c images w); [done|done|].
      intros x Hx. destruct x; cbn in *; try done. congruence.
Qed.

(** X3.  In every run of [Exec] the check options of each attestation
    verification and of each printed header are those built from the
    command: the claim verifier is set exactly when [CheckClaims] is,
    the signature verifier is the envelope-aware one around the wrapped
    key, that key is nil exactly in keyless mode, and the transparency
    log and the roots are set together or not at all. *)
Theorem Exec_check_options (c : Command) (images : list string) (w : World) :
  Forall (fun x => match x with
                   | CallVerifyAttestations _ co | CallPrintVerificationHeader _ co _ =>
                       ClaimVerifier_ co
                       = (if CheckClaims c then Some IntotoSubjectClaimVerifier else None) /\
                       (exists pubKey,
                          SigVerifier_ co = Some (reverseDSSEVerifier (WrapVerifier pubKey)) /\
                          (pubKey = None <-> KeyRef c = EmptyString /\ Sk c = false)) /\
                       ((RekorURL_ co = RekorURL c /\ is_Some (RootCerts co)) \/
                        (RekorURL_ co = EmptyString /\ RootCerts co = None))
                   | _ => True
                   end) (Exec c images w).2.
Proof.
  apply (Exec_calls _ (fun _ => True) c images w); [done|done|].
  intros x Hx. by destruct x.
Qed.

(** X4.  The fields [Output] and [FulcioURL] of the command are not
    read: a run with other values in them ends alike, leaves the same
    world and makes the same calls.  Every verification is printed in
    the text mode. *)
Theorem Exec_ignores_output (c : Command) (images : list string) (w : World) :
  (forall output fulcioURL,
     Exec (with_output c output fulcioURL) images w = Exec c images w) /\
  Forall (fun x => match x with
                   | CallPrintVerification _ _ output => output = "text"
                   | _ => True
                   end) (Exec c images w).2.
Proof.
  split; [reflexivity|].
  apply (Exec_calls _ (fun _ => True) c images w); [done|done|].
  intros x Hx. by destruct x.
Qed.


(** *** The images a run prints *)

Lemma printed_none (l : list call) :
  Forall (fun x => match x with CallPrintVerification _ _ _ => False | _ => True end) l ->
  printed l = [].
Proof.
  induction 1 as [|x l Hx _ IH]; [done|]. unfold printed in *.
  by destruct x; cbn in *.
Qed.

Lemma printed_app (l1 l2 : list call) : printed (l1 ++ l2) = printed l1 ++ printed l2.
Proof. apply omap_app. Qed.

Lemma printed_other (l : list call) (x : call) :
  match x with CallPrintVerification _ _ _ => False | _ => True end ->
  printed (l ++ [x]) = printed l.
Proof. intros Hx. rewrite printed_app. destruct x; try done; apply List.app_nil_r. Qed.

Lemma printed_releases (ds : list deferred) : printed (releases ds) = [].
Proof. induction ds as [|[sk] ds IH]; [done|]. exact IH. Qed.

Lemma forImages_printed_at (c : Command) (co : Opts) (imageRef : string) (st st' : state)
    (f : flow unit) :
  forImages c co imageRef st = (f, st') ->
  printed (log st')
  = printed (log st) ++ match f with Next _ => [imageRef] | _ => [] end.
Proof.
  unfold forImages, bind, compute, invoke, check, ret, return_. cbn -[printed].
  destruct (ParseReference imageRef) as [ref|e]; cbn -[printed];
    [|intros [= <- <-]; cbn -[printed]; rewrite printed_other by done;
      by rewrite List.app_nil_r].
  destruct (VerifyAttestations ref co (world st)) as [[[verified bundleVerified]|e] w1];
    cbn -[printed];
    [|intros [= <- <-]; cbn -[printed]; rewrite !printed_other by done;
      by rewrite List.app_nil_r].
  set (st1 := {| world := w1;
                 log := (log st ++ [CallParseReference imageRef]) ++
                        [CallVerifyAttestations ref co];
                 defers := defers st |}).
  assert (printed (log st1) = printed (log st)) as H1
    by (unfold st1; cbn -[printed]; by rewrite !printed_other by done).
  destruct (adds_range
              (fun x => match x with CallPrintVerification _ _ _ => False | _ => True end)
              (fun _ => True) verified (forVerified c)) with (st := st1)
    as (l & Hlog & Hl & _).
  { intros vp. apply adds_forVerified; [done|done|]. intros x _ Hx. by destruct x. }
  apply printed_none in Hl.
  destruct (range verified (forVerified c) st1) as [[[]|e|msg] st2];
    cbn -[printed] in *; intros [= <- <-]; cbn -[printed];
    rewrite ?printed_app, Hlog, printed_app, Hl, H1, ?List.app_nil_r; done.
Qed.

Lemma forImages_printed (c : Command) (co : Opts) (imageRef : string) (st : state) :
  printed (log (forImages c co imageRef st).2)
  = printed (log st) ++
    match (forImages c co imageRef st).1 with Next _ => [imageRef] | _ => [] end.
Proof.
  destruct (forImages c co imageRef st) as [f st'] eqn:E. by apply forImages_printed_at in E.
Qed.

Lemma range_forImages_printed (c : Command) (co : Opts) (xs : list string) (st : state) :
  exists seen,
    printed (log (range xs (forImages c co) st).2) = printed (log st) ++ seen /\
    match (range xs (forImages c co) st).1 with
    | Next _ => seen = xs
    | _ => exists x rest, xs = seen ++ x :: rest
    end.
Proof.
  revert st. induction xs as [|x xs IH]; intros st.
  { exists []. by rewrite List.app_nil_r. }
  cbn [range]. unfold bind. pose proof (forImages_printed c co x st) as Hx.
  destruct (forImages c co x st) as [[[]|e|msg] st1]; cbn [fst snd] in *.
  - destruct (IH st1) as (seen & Hseen & Hm). exists (x :: seen).
    rewrite Hseen, Hx, <- app_assoc. split; [done|].
    destruct (range xs (forImages c co) st1).1; [by subst| |];
      destruct Hm as (y & rest & ->); by exists y, rest.
  - exists []. split; [done|]. by exists x, xs.
  - exists []. split; [done|]. by exists x, xs.
Qed.

Lemma Exec_body_printed (c : Command) (images : list string) (st : state) :
  printed (log st) = [] ->
  (exists rest, images = printed (log (Exec_body c images st).2) ++ rest) /\
  ((exists u, (Exec_body c images st).1 = Next u) <->
   images <> [] /\ printed (log (Exec_body c images st).2) = images).
Proof.
  intros Hst. unfold Exec_body. destruct images as [|imageRef images].
  { cbn. rewrite Hst. split; [by exists []|]. split; [by intros [u Hu]|by intros [? _]]. }
  cbn [List.length Nat.eqb]. set (imgs := imageRef :: images).
  destruct (adds_prepare
              (fun x => match x with CallPrintVerification _ _ _ => False | _ => True end)
              (fun _ => True) c) with (st := st) as (l & Hlog & Hl & _).
  { done. }
  { intros x _ Hx. by destruct x. }
  apply printed_none in Hl. unfold bind.
  destruct (prepare c st) as [[co|e|msg] st1]; cbn [fst snd] in *.
  - assert (printed (log st1) = []) as H1 by (by rewrite Hlog, printed_app, Hst, Hl).
    destruct (range_forImages_printed c co imgs st1) as (seen & Hseen & Hm).
    rewrite H1 in Hseen. cbn [app] in Hseen. rewrite Hseen.
    destruct (range imgs (forImages c co) st1).1 as [[]|e|msg].
    + subst seen. split; [exists []; by rewrite List.app_nil_r|].
      split; [done|by exists tt].
    + destruct Hm as (x & rest & Hx). split; [by exists (x :: rest)|].
      split; [by intros [u Hu]|]. intros [_ Heq]. rewrite Heq in Hx.
      apply (f_equal List.length) in Hx. rewrite length_app in Hx. cbn in Hx. lia.
    + destruct Hm as (x & rest & Hx). split; [by exists (x :: rest)|].
      split; [by intros [u Hu]|]. intros [_ Heq]. rewrite Heq in Hx.
      apply (f_equal List.length) in Hx. rewrite length_app in Hx. cbn in Hx. lia.
  - rewrite Hlog, printed_app, Hst, Hl. split; [by exists imgs|].
    split; [by intros [u Hu]|by intros [_ ?]].
  - rewrite Hlog, printed_app, Hst, Hl. split; [by exists imgs|].
    split; [by intros [u Hu]|by intros [_ ?]].
Qed.

(** X6.  The images whose verification a run of [Exec] prints are, in
    their order, the first ones of the image list, and [Exec] returns
    nil exactly when the list is not empty and every image of it was
    printed.  So an image is printed only after all its attestations
    went through without error, and none after the first failure. *)
Theorem Exec_prints_verified_images (c : Command) (images : list string) (w : World) :
  (exists rest, images = printed (Exec c images w).2 ++ rest) /\
  ((Exec c images w).1.1 = Returned None <->
   images <> [] /\ printed (Exec c images w).2 = images).
Proof.
  destruct (Exec_body_printed c images {| world := w; log := []; defers := [] |} eq_refl)
    as [Hpre Hiff].
  unfold Exec.
  destruct (Exec_body c images {| world := w; log := []; defers := [] |}) as [f st'].
  cbn [fst snd] in *.
  pose proof (run_deferred_log (defers st') (world st') (log st')) as Hrun.
  destruct (run_deferred _ _ _) as [w' l']. cbn [fst snd] in *. subst l'.
  rewrite printed_app, printed_releases, List.app_nil_r. split; [done|].
  rewrite <- Hiff. destruct f as [[]|e|msg]; split; try done; try (by intros [u Hu]).
  by exists tt.
Qed.

(** *** Errors before the loop *)



(** X8.  When the client options cannot be made, [Exec] returns that
    error wrapped as constructing client options, and asking for them
    was its only call: no key is loaded and no image is looked at. *)
Theorem Exec_client_options_error (c : Command) (images : list string) (w w1 : World)
    (e : error) :
  images <> [] ->
  OneOf (KeyRef c) (Sk c) = true \/ EnableExperimental w = true ->
  ClientOpts (RegistryOptions_ c) w = (Err e, w1) ->
  Exec c images w
  = (Returned (Some (errors_Wrap e "constructing client options")), w1, [CallClientOpts]).
Proof.
  intros Himg Hg Hco. destruct images as [|imageRef images]; [done|].
  unfold Exec, Exec_body, prepare. cbn [List.length Nat.eqb].
  unfold bind, experimental, invoke, check, ret, return_. cbn.
  destruct (OneOf (KeyRef c) (Sk c)); cbn.
  - by rewrite Hco.
  - destruct Hg as [Hg|Hg]; [done|]. rewrite Hg. cbn. by rewrite Hco.
Qed.

(** The calls before the key is loaded. *)
Lemma Exec_body_at_key (c : Command) (images : list string) (w w1 : World)
    (ociremoteOpts : RemoteOpts) :
  images <> [] ->
  OneOf (KeyRef c) (Sk c) = true \/ EnableExperimental w = true ->
  ClientOpts (RegistryOptions_ c) w = (Ok ociremoteOpts, w1) ->
  Exec_body c images {| world := w; log := []; defers := [] |}
  = bind (loadKey c)
      (fun pubKey =>
         range images
           (forImages c
              {| RegistryClientOpts := ociremoteOpts;
                 ClaimVerifier_ :=
                   if CheckClaims c then Some IntotoSubjectClaimVerifier else None;
                 RekorURL_ := if EnableExperimental w1 then RekorURL c else EmptyString;
                 RootCerts := if EnableExperimental w1 then Some (GetRoots w1).1 else None;
                 SigVerifier_ := Some (reverseDSSEVerifier (WrapVerifier pubKey)) |}))
      {| world := if EnableExperimental w1 then (GetRoots w1).2 else w1;
         log := CallClientOpts :: (if EnableExperimental w1 then [CallGetRoots] else []);
         defers := [] |}.
Proof.
  intros Himg Hg Hco. destruct images as [|imageRef images]; [done|].
  unfold Exec_body, prepare. cbn [List.length Nat.eqb].
  assert (forall st, (if negb (OneOf (KeyRef c) (Sk c))
           then bind experimental (fun e => ret (negb e)) else ret false) st
          = (Next (if negb (OneOf (KeyRef c) (Sk c))
                   then negb (EnableExperimental (world st)) else false), st)) as Hguard.
  { intros st. by destruct (OneOf (KeyRef c) (Sk c)). }
  unfold bind at 1 2. rewrite Hguard. cbn [world].
  replace (if negb (OneOf (KeyRef c) (Sk c)) then negb (EnableExperimental w) else false)
    with false by (destruct (OneOf (KeyRef c) (Sk c)); cbn; [done|];
                   destruct Hg as [Hg|Hg]; [done|by rewrite Hg]).
  unfold bind at 1, invoke at 1. cbn [world]. rewrite Hco.
  unfold bind at 1, check at 1, ret at 1. cbv zeta.
  unfold bind at 1, experimental at 1. cbn [world].
  destruct (EnableExperimental w1).
  - unfold bind at 1 2, invoke at 1. cbn [world]. destruct (GetRoots w1) as [roots w2].
    unfold ret at 1. cbn [fst snd log defers]. unfold bind.
    by destruct (loadKey c _) as [[pubKey|err|msg] st1].
  - unfold bind at 1, ret at 1. unfold bind.
    by destruct (loadKey c _) as [[pubKey|err|msg] st1].
Qed.

(** X9.  When the key reference cannot be loaded, [Exec] returns that
    error wrapped as loading public key; the client options, the roots
    in experimental mode and the key reference were asked for, and no
    image is looked at. *)
Theorem Exec_key_reference_error (c : Command) (images : list string) (w w1 w3 : World)
    (ociremoteOpts : RemoteOpts) (e : error) :
  images <> [] -> KeyRef c <> EmptyString ->
  OneOf (KeyRef c) (Sk c) = true \/ EnableExperimental w = true ->
  ClientOpts (RegistryOptions_ c) w = (Ok ociremoteOpts, w1) ->
  PublicKeyFromKeyRef (KeyRef c) (if EnableExperimental w1 then (GetRoots w1).2 else w1)
  = (Err e, w3) ->
  Exec c images w
  = (Returned (Some (errors_Wrap e "loading public key")), w3,
     CallClientOpts :: (if EnableExperimental w1 then [CallGetRoots] else []) ++
     [CallPublicKeyFromKeyRef (KeyRef c)]).
Proof.
  intros Himg Hk Hg Hco Hkey. unfold Exec.
  rewrite (Exec_body_at_key c images w w1 ociremoteOpts Himg Hg Hco).
  unfold loadKey. destruct (String.eqb_spec (KeyRef c) EmptyString) as [Hk'|_]; [done|].
  cbn [negb]. unfold bind, invoke, check, return_. cbn [world]. rewrite Hkey. done.
Qed.

(** X10.  When the hardware token cannot be opened, [Exec] returns that
    error wrapped as opening piv token, and no release is registered or
    made: the run closes no token. *)
Theorem Exec_token_open_error (c : Command) (images : list string) (w w1 w3 : World)
    (ociremoteOpts : RemoteOpts) (e : error) :
  images <> [] -> KeyRef c = EmptyString -> Sk c = true ->
  ClientOpts (RegistryOptions_ c) w = (Ok ociremoteOpts, w1) ->
  GetKeyWithSlot (Slot c) (if EnableExperimental w1 then (GetRoots w1).2 else w1)
  = (Err e, w3) ->
  Exec c images w
  = (Returned (Some (errors_Wrap e "opening piv token")), w3,
     CallClientOpts :: (if EnableExperimental w1 then [CallGetRoots] else []) ++
     [CallGetKeyWithSlot (Slot c)]).
Proof.
  intros Himg Hk Hs Hco Hget. unfold Exec.
  rewrite (Exec_body_at_key c images w w1 ociremoteOpts Himg); [|left; by rewrite Hk, Hs|done].
  unfold loadKey. rewrite Hk, Hs. cbn [String.eqb negb].
  unfold bind, invoke, check, return_. cbn [world]. rewrite Hget. done.
Qed.

(** *** Envelopes *)

Lemma forVerified_other_type (c : Command) (vp : OciSignature) (st : state)
    (payload : string) (w : World) (payloadData : gmap string (value float64)) :
  Payload vp (world st) = (Ok payload, w) ->
  Unmarshal_map payload = Ok payloadData ->
  index_any payloadData "payloadType" <> Str (requested c) ->
  forVerified c vp st
  = (Next tt, logged st w [CallPayload vp; CallUnmarshalEnvelope payload]).
Proof.
  intros Hp Hu Hne. apply string_neq_any_true in Hne.
  unfold forVerified, bind, invoke, compute, check, ret, logged. rewrite Hp. cbn.
  rewrite Hu. cbn. unfold requested in Hne. rewrite Hne. by rewrite <- app_assoc.
Qed.

Lemma policy_inputs_app (l1 l2 : list call) :
  policy_inputs (l1 ++ l2) = policy_inputs l1 ++ policy_inputs l2.
Proof. apply omap_app. Qed.

Lemma range_other_types (c : Command) (verified : list OciSignature) :
  Forall (fun vp => forall w, exists payload w' payloadData,
            Payload vp w = (Ok payload, w') /\
            Unmarshal_map payload = Ok payloadData /\
            index_any payloadData "payloadType" <> Str (requested c)) verified ->
  forall st,
    (range verified (forVerified c) st).1 = Next tt /\
    policy_inputs (log (range verified (forVerified c) st).2) = policy_inputs (log st) /\
    printed (log (range verified (forVerified c) st).2) = printed (log st).
Proof.
  induction 1 as [|vp verified Hvp _ IH]; intros st; [done|].
  destruct (Hvp (world st)) as (payload & w' & payloadData & Hp & Hu & Hne).
  cbn [range]. unfold bind. rewrite (forVerified_other_type c vp st payload w' _ Hp Hu Hne).
  destruct (IH (logged st w' [CallPayload vp; CallUnmarshalEnvelope payload]))
    as (Hf & Hpol & Hpr).
  split; [done|]. rewrite Hpol, Hpr. cbn [logged log].
  by rewrite policy_inputs_app, printed_app, !List.app_nil_r.
Qed.

Lemma forImages_unfold (c : Command) (co : Opts) (imageRef : string) (st : state)
    (ref : Reference) (verified : list OciSignature) (bundleVerified : bool) (w : World) :
  ParseReference imageRef = Ok ref ->
  VerifyAttestations ref co (world st) = (Ok (verified, bundleVerified), w) ->
  forImages c co imageRef st
  = bind (range verified (forVerified c))
      (fun _ =>
         bind (invoke (CallPrintVerificationHeader imageRef co bundleVerified)
                 (fun w => (tt, PrintVerificationHeader imageRef co bundleVerified w)))
           (fun _ =>
              invoke (CallPrintVerification imageRef verified "text")
                (fun w => (tt, PrintVerification imageRef verified "text" w))))
      (logged st w [CallParseReference imageRef; CallVerifyAttestations ref co]).
Proof.
  intros Href Hver. unfold forImages, bind, compute, invoke, check, ret, logged. cbn.
  rewrite Href. cbn. rewrite Hver. cbn. by rewrite <- app_assoc.
Qed.

(** X11.  An image none of whose verified attestations carries the
    requested payload type goes through: the step for it ends without
    error and prints the image as verified, and no policy was evaluated
    for it. *)
Theorem forImages_without_requested_type (c : Command) (co : Opts) (imageRef : string)
    (st : state) (ref : Reference) (verified : list OciSignature) (bundleVerified : bool)
    (w : World) :
  ParseReference imageRef = Ok ref ->
  VerifyAttestations ref co (world st) = (Ok (verified, bundleVerified), w) ->
  Forall (fun vp => forall w, exists payload w' payloadData,
            Payload vp w = (Ok payload, w') /\
            Unmarshal_map payload = Ok payloadData /\
            index_any payloadData "payloadType" <> Str (requested c)) verified ->
  (forImages c co imageRef st).1 = Next tt /\
  policy_inputs (log (forImages c co imageRef st).2) = policy_inputs (log st) /\
  printed (log (forImages c co imageRef st).2) = printed (log st) ++ [imageRef].
Proof.
  intros Href Hver Hall.
  assert ((forImages c co imageRef st).1 = Next tt /\
          policy_inputs (log (forImages c co imageRef st).2) = policy_inputs (log st))
    as [Hf Hpol].
  { rewrite (forImages_unfold c co imageRef st ref verified bundleVerified w Href Hver).
    destruct (range_other_types c verified Hall
                (logged st w [CallParseReference imageRef; CallVerifyAttestations ref co]))
      as (Hr & Hp & _).
    unfold bind at 1 3.
    destruct (range verified (forVerified c) _) as [f st2]. cbn [fst snd] in *. subst f.
    unfold bind, invoke. cbn [fst snd log].
    split; [done|]. rewrite !policy_inputs_app, Hp. cbn [logged log].
    rewrite !policy_inputs_app. cbn. by rewrite !List.app_nil_r. }
  split; [done|]. split; [done|]. rewrite forImages_printed. by rewrite Hf.
Qed.


(** X13.  When the policy evaluator returns an error for an envelope,
    that error is returned as it is, the evaluation was the last call,
    and the envelopes after it are not looked at. *)
Theorem forVerified_policy_error (c : Command) (vp : OciSignature) (st : state)
    (payload : string) (w : World) (s decodedPayload : string) :
  passes c vp st payload w s decodedPayload ->
  (PredicateType c = PredicateCustom -> forall stmt e w' rest,
     Unmarshal_Statement decodedPayload = Ok stmt ->
     cue_ValidateJSON (marshalled (Marshal_any (Predicate stmt))) (Policies c) w
     = (Some e, w') ->
     range (vp :: rest) (forVerified c) st
     = (Return e,
        logged st w'
          (opened vp payload s ++
           [CallUnmarshalStatement IntoStatement decodedPayload;
            CallMarshal (CustomPredicate (Predicate stmt));
            CallValidateJSON (marshalled (Marshal_any (Predicate stmt))) (Policies c)]))) /\
  (PredicateType c = PredicateLink -> forall stmt e w' rest,
     Unmarshal_LinkStatement decodedPayload = Ok stmt ->
     cue_ValidateJSON (marshalled (Marshal_Link (Predicate stmt))) (Policies c) w
     = (Some e, w') ->
     range (vp :: rest) (forVerified c) st
     = (Return e,
        logged st w'
          (opened vp payload s ++
           [CallUnmarshalStatement IntoLinkStatement decodedPayload;
            CallMarshal (LinkPredicate (Predicate stmt));
            CallValidateJSON (marshalled (Marshal_Link (Predicate stmt))) (Policies c)]))) /\
  (PredicateType c = PredicateSLSA -> forall stmt e w' rest,
     Unmarshal_ProvenanceStatement decodedPayload = Ok stmt ->
     cue_ValidateJSON (marshalled (Marshal_ProvenancePredicate (Predicate stmt)))
       (Policies c) w = (Some e, w') ->
     range (vp :: rest) (forVerified c) st
     = (Return e,
        logged st w'
          (opened vp payload s ++
           [CallUnmarshalStatement IntoProvenanceStatement decodedPayload;
            CallMarshal (SLSAPredicate (Predicate stmt));
            CallValidateJSON (marshalled (Marshal_ProvenancePredicate (Predicate stmt)))
              (Policies c)]))) /\
  (PredicateType c = PredicateSPDX -> forall stmt e w' rest,
     Unmarshal_SPDXStatement decodedPayload = Ok stmt ->
     cue_ValidateJSON (marshalled (Marshal_any (Predicate stmt))) (Policies c) w
     = (Some e, w') ->
     range (vp :: rest) (forVerified c) st
     = (Return e,
        logged st w'
          (opened vp payload s ++
           [CallUnmarshalStatement IntoSPDXStatement decodedPayload;
            CallMarshal (SPDXPredicate (Predicate stmt));
            CallValidateJSON (marshalled (Marshal_any (Predicate stmt))) (Policies c)]))).
Proof.
  intros Hpass. pose proof (forVerified_passes _ _ _ _ _ _ _ Hpass) as Heq.
  cbv zeta in Heq.
  split; [|split; [|split]]; intros Hc stmt e w' rest Hs Hv; cbn [range]; unfold bind at 1;
    rewrite Heq, Hc, Hs;
    cbn [String.eqb Ascii.eqb Bool.eqb PredicateCustom PredicateLink PredicateSLSA
           PredicateSPDX];
    rewrite validate_unfold; cbn [logged world]; rewrite Hv; cbn [fst snd];
    unfold logged; cbn [log defers world]; by rewrite <- !app_assoc.
Qed.

(** *** Errors that end the run *)

(** X16.  A reference that does not parse ends the run with the
    parser's error as it is: nothing is fetched for it, and the
    references after it are not looked at. *)
Theorem forImages_parse_error (c : Command) (co : Opts) (imageRef : string) (st : state)
    (e : error) :
  ParseReference imageRef = Err e ->
  forall rest,
    range (imageRef :: rest) (forImages c co) st
    = (Return e, logged st (world st) [CallParseReference imageRef]).
Proof.
  intros Href rest. cbn [range]. unfold bind at 1.
  unfold forImages, bind, compute, check, return_, logged. by rewrite Href.
Qed.

(** X17.  An envelope that cannot be read ends the run with the error
    as it is, before any statement is parsed or any policy evaluated:
    the error of fetching its payload, the error of parsing the payload
    as an envelope, or, for an envelope of the requested type, the error
    of decoding the base64 payload. *)
Theorem forVerified_unreadable_envelope (c : Command) (vp : OciSignature) (st : state) :
  (forall e w,
     Payload vp (world st) = (Err e, w) ->
     forVerified c vp st = (Return e, logged st w [CallPayload vp])) /\
  (forall payload w e,
     Payload vp (world st) = (Ok payload, w) ->
     Unmarshal_map payload = Err e ->
     forVerified c vp st
     = (Return e, logged st w [CallPayload vp; CallUnmarshalEnvelope payload])) /\
  (forall payload w payloadData s e,
     Payload vp (world st) = (Ok payload, w) ->
     Unmarshal_map payload = Ok payloadData ->
     index_any payloadData "payloadType" = Str (requested c) ->
     index_any payloadData "payload" = Str s ->
     DecodeString s = Err e ->
     forVerified c vp st
     = (Return e,
        logged st w [CallPayload vp; CallUnmarshalEnvelope payload; CallDecodeString s])).
Proof.
  split; [|split].
  - intros e w Hp. unfold forVerified, bind, invoke, check, return_, logged. by rewrite Hp.
  - intros payload w e Hp Hu.
    unfold forVerified, bind, invoke, compute, check, ret, return_, logged. rewrite Hp. cbn.
    rewrite Hu. cbn. by rewrite <- app_assoc.
  - intros payload w payloadData s e Hp Hu Hty Hpay Hdec.
    unfold forVerified, bind, invoke, compute, check, ret, return_, logged. rewrite Hp. cbn.
    rewrite Hu. cbn. rewrite Hty, Hpay. unfold requested. cbn.
    rewrite String.eqb_refl. cbn. rewrite Hdec. cbn. by rewrite <- !app_assoc.
Qed.

(** X18.  When the decoded payload does not parse as the statement of
    the requested type, that error is returned as it is, nothing is
    marshalled and no policy is evaluated, and the envelopes after it
    are not looked at. *)
Theorem forVerified_statement_error (c : Command) (vp : OciSignature) (st : state)
    (payload : string) (w : World) (s decodedPayload : string) :
  passes c vp st payload w s decodedPayload ->
  (PredicateType c = PredicateCustom -> forall e rest,
     Unmarshal_Statement decodedPayload = Err e ->
     range (vp :: rest) (forVerified c) st
     = (Return e,
        logged st w (opened vp payload s ++
                     [CallUnmarshalStatement IntoStatement decodedPayload]))) /\
  (PredicateType c = PredicateLink -> forall e rest,
     Unmarshal_LinkStatement decodedPayload = Err e ->
     range (vp :: rest) (forVerified c) st
     = (Return e,
        logged st w (opened vp payload s ++
                     [CallUnmarshalStatement IntoLinkStatement decodedPayload]))) /\
  (PredicateType c = PredicateSLSA -> forall e rest,
     Unmarshal_ProvenanceStatement decodedPayload = Err e ->
     range (vp :: rest) (forVerified c) st
     = (Return e,
        logged st w (opened vp payload s ++
                     [CallUnmarshalStatement IntoProvenanceStatement decodedPayload]))) /\
  (PredicateType c = PredicateSPDX -> forall e rest,
     Unmarshal_SPDXStatement decodedPayload = Err e ->
     range (vp :: rest) (forVerified c) st
     = (Return e,
        logged st w (opened vp payload s ++
                     [CallUnmarshalStatement IntoSPDXStatement decodedPayload]))).
Proof.
  intros Hpass. pose proof (forVerified_passes _ _ _ _ _ _ _ Hpass) as Heq.
  cbv zeta in Heq.
  split; [|split; [|split]]; intros Hc e rest Hs; cbn [range]; unfold bind at 1;
    rewrite Heq, Hc, Hs;
    cbn [String.eqb Ascii.eqb Bool.eqb PredicateCustom PredicateLink PredicateSLSA
           PredicateSPDX];
    unfold logged; cbn [log defers world]; by rewrite <- !app_assoc.
Qed.


End Steps.

(** *** Runs in the small world *)

(** A run with a key reference and one image makes calls, none of them
    on the token. *)
Lemma Exec_key_reference_first_witness :
  Forall (fun x => token_call x = false)
    (Exec (X:=Demo.externals) (Demo.command "key.pub" false) ["good"] tt).2.
Proof.
  apply (Exec_key_reference_first (X:=Demo.externals) (Demo.command "key.pub" false)
           ["good"] tt).
  left. discriminate.
Defined.


(** Client options that cannot be made. *)
Lemma Exec_client_options_error_witness :
  Exec (X:=Demo.faulty false) (Demo.command "key.pub" false) ["good"] tt
  = (Returned (Some (errors_Wrap Demo.registry_error "constructing client options")), tt,
     [CallClientOpts]).
Proof.
  apply (Exec_client_options_error (X:=Demo.faulty false) (Demo.command "key.pub" false)
           ["good"] tt tt Demo.registry_error);
    [discriminate|left; reflexivity|reflexivity].
Defined.

(** A key reference that cannot be loaded. *)
Lemma Exec_key_reference_error_witness :
  Exec (X:=Demo.faulty true) (Demo.command "missing.pub" false) ["good"] tt
  = (Returned (Some (errors_Wrap Demo.key_error "loading public key")), tt,
     [CallClientOpts; CallPublicKeyFromKeyRef "missing.pub"]).
Proof.
  apply (Exec_key_reference_error (X:=Demo.faulty true) (Demo.command "missing.pub" false)
           ["good"] tt tt tt tt Demo.key_error);
    [discriminate|discriminate|left; reflexivity|reflexivity|reflexivity].
Defined.

(** A slot that cannot be opened. *)
Lemma Exec_token_open_error_witness :
  Exec (X:=Demo.faulty true)
    (Demo.command_with EmptyString true "9a" "custom" ["policy.cue"]) ["good"] tt
  = (Returned (Some (errors_Wrap Demo.slot_error "opening piv token")), tt,
     [CallClientOpts; CallGetKeyWithSlot "9a"]).
Proof.
  apply (Exec_token_open_error (X:=Demo.faulty true)
           (Demo.command_with EmptyString true "9a" "custom" ["policy.cue"])
           ["good"] tt tt tt tt Demo.slot_error);
    [discriminate|reflexivity|reflexivity|reflexivity|reflexivity].
Defined.

(** With the SLSA provenance type requested, neither envelope of the
    image called good has the requested type: the image is printed and
    no policy is evaluated. *)
Lemma forImages_without_requested_type_witness :
  (forImages (X:=Demo.externals)
     (Demo.command_with "key.pub" false "9c" "slsaprovenance" ["policy.cue"])
     Demo.opts "good" Demo.start).1 = Next tt /\
  policy_inputs
    (log (forImages (X:=Demo.externals)
            (Demo.command_with "key.pub" false "9c" "slsaprovenance" ["policy.cue"])
            Demo.opts "good" Demo.start).2) = [] /\
  printed
    (log (forImages (X:=Demo.externals)
            (Demo.command_with "key.pub" false "9c" "slsaprovenance" ["policy.cue"])
            Demo.opts "good" Demo.start).2) = ["good"].
Proof.
  apply (forImages_without_requested_type (X:=Demo.externals)
           (Demo.command_with "key.pub" false "9c" "slsaprovenance" ["policy.cue"])
           Demo.opts "good" Demo.start "good" ["envelope-custom"; "envelope-other"] true tt);
    [reflexivity|reflexivity|].
  repeat constructor.
  - intros w.
    exists "envelope-custom", w,
      {[ "payloadType" := Str Demo.custom_uri; "payload" := Str "c3RhdGVtZW50" ]}.
    split; [reflexivity|]. split; [reflexivity|]. vm_compute. discriminate.
  - intros w.
    exists "envelope-other", w,
      {[ "payloadType" := Str "text/plain"; "payload" := Str "aGVsbG8=" ]}.
    split; [reflexivity|]. split; [reflexivity|]. vm_compute. discriminate.
Defined.


Lemma custom_passes_faulty :
  passes (X:=Demo.faulty true) (Demo.command_with "key.pub" false "9c" "custom" ["deny.cue"])
    "envelope-custom" Demo.start "envelope-custom" tt "c3RhdGVtZW50" "decoded c3RhdGVtZW50".
Proof.
  exists {[ "payloadType" := Str Demo.custom_uri; "payload" := Str "c3RhdGVtZW50" ]}.
  repeat split; reflexivity.
Qed.

(** The policy deny.cue fails for the custom envelope: its error comes
    back, and the envelope after it is not fetched. *)
Lemma forVerified_policy_error_witness :
  range ["envelope-custom"; "envelope-other"]
    (forVerified (X:=Demo.faulty true)
       (Demo.command_with "key.pub" false "9c" "custom" ["deny.cue"])) Demo.start
  = (Return Demo.policy_error,
     logged Demo.start tt
       (opened (T:=Demo.types) "envelope-custom" "envelope-custom" "c3RhdGVtZW50" ++
        [CallUnmarshalStatement IntoStatement "decoded c3RhdGVtZW50";
         CallMarshal (CustomPredicate (T:=Demo.types) (Predicate Demo.statement));
         CallValidateJSON "predicate" ["deny.cue"]])).
Proof.
  apply (proj1 (forVerified_policy_error (X:=Demo.faulty true)
                  (Demo.command_with "key.pub" false "9c" "custom" ["deny.cue"])
                  "envelope-custom" Demo.start "envelope-custom" tt
                  "c3RhdGVtZW50" "decoded c3RhdGVtZW50" custom_passes_faulty)
           eq_refl Demo.statement Demo.policy_error tt ["envelope-other"] eq_refl eq_refl).
Defined.

(** A name that is no reference, before a good one. *)
Lemma forImages_parse_error_witness :
  range ["Not A Reference"; "good"]
    (forImages (X:=Demo.faulty true) (Demo.command "key.pub" false) Demo.opts) Demo.start
  = (Return Demo.parse_error,
     logged Demo.start tt [CallParseReference (T:=Demo.types) "Not A Reference"]).
Proof.
  apply (forImages_parse_error (X:=Demo.faulty true) (Demo.command "key.pub" false)
           Demo.opts "Not A Reference" Demo.start Demo.parse_error eq_refl ["good"]).
Defined.

(** A payload that is no envelope. *)
Lemma forVerified_unreadable_envelope_witness :
  forVerified (X:=Demo.externals) (Demo.command "key.pub" false) "envelope-junk" Demo.start
  = (Return (Foreign "encoding/json" "unexpected end of JSON input"),
     logged Demo.start tt
       [CallPayload (T:=Demo.types) "envelope-junk"; CallUnmarshalEnvelope "envelope-junk"]).
Proof.
  apply (proj1 (proj2 (forVerified_unreadable_envelope (X:=Demo.externals)
                         (Demo.command "key.pub" false) "envelope-junk" Demo.start))
           "envelope-junk" tt (Foreign "encoding/json" "unexpected end of JSON input")
           eq_refl eq_refl).
Defined.

Lemma nostatement_passes :
  passes (X:=Demo.faulty true) (Demo.command "key.pub" false)
    "envelope-nostatement" Demo.start "envelope-nostatement" tt
    "bm90IGpzb24=" "decoded bm90IGpzb24=".
Proof.
  exists {[ "payloadType" := Str Demo.custom_uri; "payload" := Str "bm90IGpzb24=" ]}.
  repeat split; reflexivity.
Qed.

(** A payload that is no statement, before another envelope. *)
Lemma forVerified_statement_error_witness :
  range ["envelope-nostatement"; "envelope-custom"]
    (forVerified (X:=Demo.faulty true) (Demo.command "key.pub" false)) Demo.start
  = (Return Demo.statement_error,
     logged Demo.start tt
       (opened (T:=Demo.types) "envelope-nostatement" "envelope-nostatement" "bm90IGpzb24=" ++
        [CallUnmarshalStatement IntoStatement "decoded bm90IGpzb24="])).
Proof.
  apply (proj1 (forVerified_statement_error (X:=Demo.faulty true)
                  (Demo.command "key.pub" false) "envelope-nostatement" Demo.start
                  "envelope-nostatement" tt "bm90IGpzb24=" "decoded bm90IGpzb24="
                  nostatement_passes)
           eq_refl Demo.statement_error ["envelope-custom"] eq_refl).
Defined.



End ExecFacts.

(** ** The evaluator and the bytes of the body *)

Module EvaluatorFacts.
Import Json Rego JsonFacts.

Section Body.
Context {float64 : Type} {E : Engine float64}.

Lemma skip_space_blank (s : string) : blank s = true -> skip_space s = EmptyString.
Proof.
  induction s as [|c s IH]; [done|]. cbn [blank skip_space].
  intros [Hc Hs]%andb_true_iff. rewrite Hc. by apply IH.
Qed.

(** X14.  A body that is empty or holds white space only is no input:
    when the policy sources were prepared, [ValidateJSON] returns the
    end-of-file error of the decoder and evaluates nothing. *)
Theorem ValidateJSON_blank_body (jsonBody : string) (entrypoints : list string)
    (query : PreparedEvalQuery) :
  blank jsonBody = true ->
  PrepareForEval (New "data.signature.allow" entrypoints) = Ok query ->
  ValidateJSON jsonBody entrypoints
  = (Some EOF, [CallPrepareForEval (New "data.signature.allow" entrypoints)]).
Proof.
  intros Hb Hp. unfold ValidateJSON. rewrite Hp.
  unfold Decode, UseNumber, NewDecoder. cbn [buf useNumber].
  by rewrite (skip_space_blank jsonBody Hb).
Qed.

Lemma Decode_render_to (d : doc) (rest : string) :
  well_formed d = true -> (height d <= maxNestingDepth)%N -> number_stop rest = true ->
  Decode ParseFloat (UseNumber (NewDecoder (render_to d rest)))
  = (Ok (value_of_doc d), {| buf := rest; useNumber := true |}).
Proof.
  intros Wd Hd Hr. unfold Decode, UseNumber, NewDecoder. cbn [buf useNumber].
  destruct (render_head d rest) as (c & r & Hc & Hsp & _).
  pose proof (render_weight d rest) as Hw.
  pose proof (decode_render ParseFloat d Wd (calls (render_to d rest)) 0%N rest) as Hdec.
  rewrite Hc in *. rewrite (skip_space_head _ _ Hsp).
  rewrite Hdec; [done | unfold calls; lia | lia | done].
Qed.

(** X15.  [ValidateJSON] reads one JSON value from the body and does
    not look at what follows it: a body that goes on after the text of
    a document, with bytes that cannot continue a number, gets the same
    result and the same evaluation as the text of the document alone. *)
Theorem ValidateJSON_first_value_only (d : doc) (rest : string)
    (entrypoints : list string) :
  well_formed d = true -> (height d <= maxNestingDepth)%N -> number_stop rest = true ->
  ValidateJSON (render_to d rest) entrypoints = ValidateJSON (render d) entrypoints.
Proof.
  intros Wd Hd Hr. unfold ValidateJSON, render.
  rewrite (Decode_render_to d rest Wd Hd Hr).
  by rewrite (Decode_render_to d EmptyString Wd Hd eq_refl).
Qed.

End Body.

(** In the small world a body of two spaces and a line end is no
    input. *)
Lemma ValidateJSON_blank_body_witness :
  ValidateJSON (E:=Demo.engine) (String " " (String " " (String (byte 10) EmptyString)))
    ["policy.rego"]
  = (Some EOF, [CallPrepareForEval (New "data.signature.allow" ["policy.rego"])]).
Proof.
  apply (ValidateJSON_blank_body (E:=Demo.engine)
           (String " " (String " " (String (byte 10) EmptyString)))
           ["policy.rego"] "data.signature.allow"); reflexivity.
Defined.

(** In the small world the allowed predicate stays allowed with other
    bytes after it. *)
Lemma ValidateJSON_first_value_only_witness :
  ValidateJSON (E:=Demo.engine) (render_to (Demo.data_doc "foo") " not json") ["policy.rego"]
  = ValidateJSON (E:=Demo.engine) (render (Demo.data_doc "foo")) ["policy.rego"].
Proof.
  apply (ValidateJSON_first_value_only (E:=Demo.engine) (Demo.data_doc "foo") " not json"
           ["policy.rego"]); vm_compute; first [reflexivity | discriminate].
Defined.

End EvaluatorFacts.
